(** * objcurses: camera, command line and colour-pair set-up

    A shallow embedding of [src/config.h], [src/entities/view/camera.h]
    and of [src/main.cpp]: [init_colors], [parse_args],
    [handle_control], [main] up to the render loop, and the loop itself
    as a function of the clock readings and keys it is fed.

    Numbers.  The program computes with C++ [float], which is read in
    two ways.  [Config], [Std], [Mathematics], [Cam], [Colors], [Cli],
    [Main] and [Frame] read a [float] as the rational it denotes ([Q])
    and compute exactly: the program up to rounding, silent on
    infinities and NaN; two fields hold the same number when they are
    [==] ([Qeq]).  [F32], [MathematicsF], [CamF] and [Clock] read it as
    IEEE 754 binary32 ([SpecFloat], round to nearest even) with its
    infinities and NaN, and carry the properties that rounding or NaN
    decide.

    Absent headers.  [utils/mathematics.h] ([PI], [deg2rad], [rad_norm]),
    [utils/tools.h] ([safe_stof]) and the geometry and rendering classes
    are not part of the sources at hand.  [PI] and [safe_stof] are taken
    as parameters; [deg2rad] and [rad_norm] are modelled from the
    specification and marked as such. *)

From Stdlib Require Import QArith Qround Lqa ZArith Lia List String Ascii Bool.
From Stdlib Require Import SpecFloat.
Import ListNotations.
Open Scope Q_scope.

(** ** config.h *)

Module Config.

Definition CHAR_ASPECT_RATIO : Q := 2.

Definition ANGLE_STEP : Q := 5.
Definition ZOOM_START : Q := 1.
Definition ZOOM_STEP : Q := 13421773 # 134217728.   (* 0.1f *)
Definition ZOOM_MIN : Q := 13421773 # 134217728.    (* 0.10f *)
Definition ZOOM_MAX : Q := 5.
Definition ALTITUDE_START : Q := 0.
Definition AZIMUTH_START : Q := 0.

Definition FRAME_DURATION : Q := 1 / 60.
Definition ANIMATION_STEP_ALTITUDE : Q := 30.
Definition ANIMATION_STEP_AZIMUTH : Q := 30.

End Config.

(** ** The three <algorithm> helpers the camera uses

    Written as libstdc++ writes them, with [<] as the only comparison.
    On [Q] the order is total; [F32.min], [F32.max] and [F32.clamp]
    are the same three on binary32, where a NaN compares false with
    everything. *)

Module Std.

Definition Qltb (x y : Q) : bool := negb (Qle_bool y x).

(** [std::min(a, b)] is [(b < a) ? b : a]. *)
Definition min (a b : Q) : Q := if Qltb b a then b else a.

(** [std::max(a, b)] is [(a < b) ? b : a]. *)
Definition max (a b : Q) : Q := if Qltb a b then b else a.

(** [std::clamp(v, lo, hi)] is [(v < lo) ? lo : (hi < v) ? hi : v]. *)
Definition clamp (v lo hi : Q) : Q :=
  if Qltb v lo then lo else if Qltb hi v then hi else v.

End Std.

(** ** utils/mathematics.h (absent) *)

Module Mathematics.

Section WithPI.

Variable PI : Q.

(** Modelled from the spec: [deg2rad] of the absent [utils/mathematics.h],
    "the given angle (converted to radians)": degrees times [PI / 180]. *)
Definition deg2rad (deg : Q) : Q := deg * PI / 180.

(** Modelled from the spec: [rad_norm] of the absent [utils/mathematics.h],
    "result normalized into the canonical angle range", the range being
    the one the spec names, (-PI, PI]: the angle is moved by the whole
    number of turns, [turns], that brings it there. *)
Definition turns (rad : Q) : Z := Qceiling ((rad - PI) / (2 * PI)).

Definition rad_norm (rad : Q) : Q :=
  rad - inject_Z (turns rad) * (2 * PI).

End WithPI.

(** The binary32 number nearest to pi, 3.1415927410125732...; closed
    examples run the model at this value of [PI]. *)
Definition PI_f32 : Q := 13176795 # 4194304.

End Mathematics.

(** ** entities/view/camera.h *)

Module Cam.

Import Config Mathematics.

Record Camera : Type := mkCamera {
  azimuth : Q;    (* rad *)
  altitude : Q;   (* rad *)
  zoom : Q        (* 1.0 == unit cube *)
}.

(** [Camera()] *)
Definition Camera0 : Camera :=
  mkCamera 0 0 (Std.clamp 1 ZOOM_MIN ZOOM_MAX).

(** [explicit Camera(float zoom)] *)
Definition Camera1 (zoom : Q) : Camera :=
  mkCamera 0 0 (Std.clamp zoom ZOOM_MIN ZOOM_MAX).

Section WithPI.

Variable PI : Q.

(** [Camera(float azimuth, float altitude, float zoom)] *)
Definition Camera3 (azimuth altitude zoom : Q) : Camera :=
  mkCamera (rad_norm PI azimuth)
           (Std.clamp altitude (- PI / 2) (PI / 2))
           (Std.clamp zoom ZOOM_MIN ZOOM_MAX).

Definition rotate_left (degree : Q) (c : Camera) : Camera :=
  mkCamera (rad_norm PI (azimuth c + deg2rad PI degree)) (altitude c) (zoom c).

Definition rotate_right (degree : Q) (c : Camera) : Camera :=
  mkCamera (rad_norm PI (azimuth c - deg2rad PI degree)) (altitude c) (zoom c).

Definition rotate_up (degree : Q) (c : Camera) : Camera :=
  mkCamera (azimuth c) (rad_norm PI (altitude c - deg2rad PI degree)) (zoom c).

Definition rotate_down (degree : Q) (c : Camera) : Camera :=
  mkCamera (azimuth c) (rad_norm PI (altitude c - deg2rad PI degree)) (zoom c).

End WithPI.

Definition zoom_in (step : Q) (c : Camera) : Camera :=
  mkCamera (azimuth c) (altitude c) (Std.min (zoom c + step) ZOOM_MAX).

Definition zoom_out (step : Q) (c : Camera) : Camera :=
  mkCamera (azimuth c) (altitude c) (Std.max (zoom c - step) ZOOM_MIN).

(** Two cameras that hold the same three numbers. *)
Definition same (c1 c2 : Camera) : Prop :=
  azimuth c1 == azimuth c2 /\ altitude c1 == altitude c2 /\ zoom c1 == zoom c2.

(** The ranges the specification gives for the three fields. *)
Definition canonical (PI x : Q) : Prop := - PI < x <= PI.
Definition altitude_clamped (PI x : Q) : Prop := - PI / 2 <= x <= PI / 2.
Definition zoom_clamped (x : Q) : Prop := ZOOM_MIN <= x <= ZOOM_MAX.

End Cam.

(** ** ncurses as the program sees it

    The terminal is a record of what the queries answer; the calls the
    program makes are recorded, in order, as a list. *)

Module Curses.

Definition COLOR_BLACK : Z := 0.
Definition COLOR_WHITE : Z := 7.

Definition ERR : Z := -1.
Definition KEY_DOWN : Z := 258.
Definition KEY_UP : Z := 259.
Definition KEY_LEFT : Z := 260.
Definition KEY_RIGHT : Z := 261.
Definition KEY_RESIZE : Z := 410.

Record Terminal : Type := mkTerminal {
  has_colors : bool;
  can_change_color : bool;
  COLOR_PAIRS : Z             (* an [int] *)
}.

(** A call carries its arguments as the callee receives them. *)
Inductive call : Type :=
| Initscr
| Noecho
| CursSet (visibility : Z)
| Keypad (on : bool)
| Timeout (delay : Z)
| StartColor
| UseDefaultColors
| InitColor (color r g b : Z)
| InitPair (pair fg bg : Z)
| Bkgd (pair : Z).


(** The pair indices handed to [init_pair], in call order. *)
Fixpoint init_pair_indices (cs : list call) : list Z :=
  match cs with
  | [] => []
  | InitPair p _ _ :: cs' => p :: init_pair_indices cs'
  | _ :: cs' => init_pair_indices cs'
  end.

End Curses.

(** ** main.cpp: init_ncurses and init_colors *)

Module Colors.

Import Curses.

Inductive Theme : Type := Dark | Light | Transparent.

Record Vec3 : Type := mkVec3 { x : Q; y : Q; z : Q }.

(** Of [Material] only the field [init_colors] reads. *)
Record Material : Type := mkMaterial { diffuse : Vec3 }.

(** [static_cast<size_t>] of an [int], on a 64-bit target. *)
Definition to_size_t (n : Z) : Z := (n mod 2 ^ 64)%Z.

(** [static_cast<int>] of a [size_t]. *)
Definition to_int (n : Z) : Z := ((n + 2 ^ 31) mod 2 ^ 32 - 2 ^ 31)%Z.

(** An [int] passed where ncurses takes a [short] ([init_pair] and
    [init_color] take their pair and colour numbers as [short]). *)
Definition int_to_short (n : Z) : Z := ((n + 2 ^ 15) mod 2 ^ 16 - 2 ^ 15)%Z.

(** [static_cast<short>] of a [float]: the fraction is dropped.  The
    argument is the exact product of the component and 1000; the
    program rounds that product to binary32 first, which can give the
    next integer (0.7f gives 700 there, and 699 here). *)
Definition to_short (q : Q) : Z := (Qnum q ÷ Zpos (Qden q))%Z.

Definition init_ncurses : list call :=
  [Initscr; Noecho; CursSet 0; Keypad true; Timeout 1].

Definition BG_DEFAULT : Z := -1.

Definition theme_bg (theme : Theme) : Z :=
  match theme with
  | Dark => COLOR_BLACK
  | Light => COLOR_WHITE
  | Transparent => BG_DEFAULT
  end.

Definition theme_hud (theme : Theme) : Z :=
  match theme with
  | Dark => COLOR_WHITE
  | Light => COLOR_BLACK
  | Transparent => COLOR_WHITE
  end.

(** [std::min] on [size_t]. *)
Definition min_size (a b : Z) : Z := if (b <? a)%Z then b else a.

(** [limit] of [init_colors]. *)
Definition color_limit (term : Terminal) (materials : list Material) : Z :=
  min_size (Z.of_nat (List.length materials)) (to_size_t (COLOR_PAIRS term - 2)).

(** The body of the [for] loop, from index [i] on, over the materials
    [materials[i]], [materials[i+1]], ... still to be visited. *)
Fixpoint material_pairs (term : Terminal) (bg : Z) (i : Z)
    (todo : list Material) : list call :=
  match todo with
  | [] => []
  | m :: todo' =>
      let pair := (to_int i + 1)%Z in
      let d := diffuse m in
      (if can_change_color term
       then [InitColor (int_to_short pair)
               (to_short (Std.clamp (x d) 0 1 * 1000))
               (to_short (Std.clamp (y d) 0 1 * 1000))
               (to_short (Std.clamp (z d) 0 1 * 1000))]
       else [])
      ++ InitPair (int_to_short pair) (int_to_short pair) bg
      :: material_pairs term bg (i + 1)%Z todo'
  end.

(** [init_colors]: the calls made and the new value of [g_hud_pair]
    ([g_hud_pair] is the value on entry). *)
Definition init_colors (term : Terminal) (g_hud_pair : Z)
    (materials : list Material) (theme : Theme) : list call * Z :=
  if negb (has_colors term) || negb (can_change_color term)
  then ([], g_hud_pair)
  else
    let bg := theme_bg theme in
    let hud := theme_hud theme in
    let limit := color_limit term materials in
    let g_hud_pair' := (to_int limit + 1)%Z in
    ([StartColor]
       ++ (if (bg =? BG_DEFAULT)%Z then [UseDefaultColors] else [])
       ++ material_pairs term bg 0 (firstn (Z.to_nat limit) materials)
       ++ (if (g_hud_pair' <? COLOR_PAIRS term)%Z
           then [InitPair (int_to_short g_hud_pair') hud bg] else [])
       ++ [Bkgd g_hud_pair'],
     g_hud_pair').

End Colors.

(** ** main.cpp: the command line *)

Module Cli.

Import Config Colors.

Record Args : Type := mkArgs {
  input_file : string;
  color_support : bool;       (* -c / --color *)
  theme : Theme;
  static_light : bool;        (* -l / --light *)
  flip_faces : bool;          (* --flip *)
  invert_x : bool;            (* --invert-x *)
  invert_y : bool;            (* --invert-y *)
  invert_z : bool;            (* --invert-z *)
  animate_altitude : bool;    (* -al *)
  animate_azimuth : bool;     (* -az *)
  speed_altitude : Q;         (* deg/s *)
  speed_azimuth : Q;          (* deg/s *)
  zoom : Q;                   (* -z / --zoom *)
  altitude : Q;               (* --altitude *)
  azimuth : Q                 (* --azimuth *)
}.

(** The default member initialisers of [struct Args]. *)
Definition Args0 : Args :=
  mkArgs "" false Dark false false false false false false false
         ANIMATION_STEP_ALTITUDE ANIMATION_STEP_AZIMUTH
         ZOOM_START ALTITUDE_START AZIMUTH_START.

(** Assignments to one member. *)
Definition set_input_file (a : Args) (v : string) : Args :=
  mkArgs v (color_support a) (theme a) (static_light a) (flip_faces a)
    (invert_x a) (invert_y a) (invert_z a) (animate_altitude a)
    (animate_azimuth a) (speed_altitude a) (speed_azimuth a) (zoom a)
    (altitude a) (azimuth a).
Definition set_color_support (a : Args) (v : bool) : Args :=
  mkArgs (input_file a) v (theme a) (static_light a) (flip_faces a)
    (invert_x a) (invert_y a) (invert_z a) (animate_altitude a)
    (animate_azimuth a) (speed_altitude a) (speed_azimuth a) (zoom a)
    (altitude a) (azimuth a).
Definition set_theme (a : Args) (v : Theme) : Args :=
  mkArgs (input_file a) (color_support a) v (static_light a) (flip_faces a)
    (invert_x a) (invert_y a) (invert_z a) (animate_altitude a)
    (animate_azimuth a) (speed_altitude a) (speed_azimuth a) (zoom a)
    (altitude a) (azimuth a).
Definition set_static_light (a : Args) (v : bool) : Args :=
  mkArgs (input_file a) (color_support a) (theme a) v (flip_faces a)
    (invert_x a) (invert_y a) (invert_z a) (animate_altitude a)
    (animate_azimuth a) (speed_altitude a) (speed_azimuth a) (zoom a)
    (altitude a) (azimuth a).
Definition set_flip_faces (a : Args) (v : bool) : Args :=
  mkArgs (input_file a) (color_support a) (theme a) (static_light a) v
    (invert_x a) (invert_y a) (invert_z a) (animate_altitude a)
    (animate_azimuth a) (speed_altitude a) (speed_azimuth a) (zoom a)
    (altitude a) (azimuth a).
Definition set_invert_x (a : Args) (v : bool) : Args :=
  mkArgs (input_file a) (color_support a) (theme a) (static_light a)
    (flip_faces a) v (invert_y a) (invert_z a) (animate_altitude a)
    (animate_azimuth a) (speed_altitude a) (speed_azimuth a) (zoom a)
    (altitude a) (azimuth a).
Definition set_invert_y (a : Args) (v : bool) : Args :=
  mkArgs (input_file a) (color_support a) (theme a) (static_light a)
    (flip_faces a) (invert_x a) v (invert_z a) (animate_altitude a)
    (animate_azimuth a) (speed_altitude a) (speed_azimuth a) (zoom a)
    (altitude a) (azimuth a).
Definition set_invert_z (a : Args) (v : bool) : Args :=
  mkArgs (input_file a) (color_support a) (theme a) (static_light a)
    (flip_faces a) (invert_x a) (invert_y a) v (animate_altitude a)
    (animate_azimuth a) (speed_altitude a) (speed_azimuth a) (zoom a)
    (altitude a) (azimuth a).
Definition set_animate_altitude (a : Args) (v : bool) : Args :=
  mkArgs (input_file a) (color_support a) (theme a) (static_light a)
    (flip_faces a) (invert_x a) (invert_y a) (invert_z a) v
    (animate_azimuth a) (speed_altitude a) (speed_azimuth a) (zoom a)
    (altitude a) (azimuth a).
Definition set_animate_azimuth (a : Args) (v : bool) : Args :=
  mkArgs (input_file a) (color_support a) (theme a) (static_light a)
    (flip_faces a) (invert_x a) (invert_y a) (invert_z a)
    (animate_altitude a) v (speed_altitude a) (speed_azimuth a) (zoom a)
    (altitude a) (azimuth a).
Definition set_speed_altitude (a : Args) (v : Q) : Args :=
  mkArgs (input_file a) (color_support a) (theme a) (static_light a)
    (flip_faces a) (invert_x a) (invert_y a) (invert_z a)
    (animate_altitude a) (animate_azimuth a) v (speed_azimuth a) (zoom a)
    (altitude a) (azimuth a).
Definition set_speed_azimuth (a : Args) (v : Q) : Args :=
  mkArgs (input_file a) (color_support a) (theme a) (static_light a)
    (flip_faces a) (invert_x a) (invert_y a) (invert_z a)
    (animate_altitude a) (animate_azimuth a) (speed_altitude a) v (zoom a)
    (altitude a) (azimuth a).
Definition set_zoom (a : Args) (v : Q) : Args :=
  mkArgs (input_file a) (color_support a) (theme a) (static_light a)
    (flip_faces a) (invert_x a) (invert_y a) (invert_z a)
    (animate_altitude a) (animate_azimuth a) (speed_altitude a)
    (speed_azimuth a) v (altitude a) (azimuth a).
Definition set_altitude (a : Args) (v : Q) : Args :=
  mkArgs (input_file a) (color_support a) (theme a) (static_light a)
    (flip_faces a) (invert_x a) (invert_y a) (invert_z a)
    (animate_altitude a) (animate_azimuth a) (speed_altitude a)
    (speed_azimuth a) (zoom a) v (azimuth a).
Definition set_azimuth (a : Args) (v : Q) : Args :=
  mkArgs (input_file a) (color_support a) (theme a) (static_light a)
    (flip_faces a) (invert_x a) (invert_y a) (invert_z a)
    (animate_altitude a) (animate_azimuth a) (speed_altitude a)
    (speed_azimuth a) (zoom a) (altitude a) v.

(** What the process writes: [print_help] and [print_version] on
    standard output (their text, built from the absent [version.h], is
    not spelled out), and lines on standard error. *)
Inductive output : Type :=
| Cout_help
| Cout_version
| Cerr (text : string).

(** [parse_args] either calls [std::exit] or returns the arguments. *)
Inductive parsed : Type :=
| Exit (status : Z) (out : list output)
| Parsed (a : Args).

Definition nl : string := String "010"%char EmptyString.

Definition usage_hint : output := Cerr ("type '--help' for usage" ++ nl).

(** [s[0] == '-'] ([s[0]] of an empty C string is the terminator). *)
Definition dash0 (s : string) : bool :=
  match s with
  | String c _ => Ascii.eqb c "-"%char
  | EmptyString => false
  end.

(** [std::filesystem::path::empty]. *)
Definition empty (p : string) : bool :=
  match p with
  | EmptyString => true
  | String _ _ => false
  end.

Section WithStof.

(** [safe_stof] of the absent [utils/tools.h]: a number, or nothing
    when the text is not one. *)
Variable safe_stof : string -> option Q.

(** The [for] loop of [parse_args], from [argv[i]] on: [argv] is the
    list [argv[i]], ..., [argv[argc-1]] and [a] the arguments so far. *)
Fixpoint parse_loop (a : Args) (argv : list string) {struct argv} : parsed :=
  match argv with
  | [] => Parsed a
  | arg :: rest =>
    if String.eqb arg "-h" || String.eqb arg "--help" then
      Exit 0 [Cout_help]
    else if String.eqb arg "-v" || String.eqb arg "--version" then
      Exit 0 [Cout_version]
    else if String.eqb arg "-c" || String.eqb arg "--color" then
      let a := set_color_support a true in
      match rest with
      | next :: rest' =>
          if negb (dash0 next) then
            if String.eqb next "dark" then
              parse_loop (set_theme a Dark) rest'
            else if String.eqb next "light" then
              parse_loop (set_theme a Light) rest'
            else if String.eqb next "transparent" then
              parse_loop (set_theme a Transparent) rest'
            else parse_loop a rest
          else parse_loop a rest
      | [] => parse_loop a rest
      end
    else if String.eqb arg "-l" || String.eqb arg "--light" then
      parse_loop (set_static_light a true) rest
    else if String.eqb arg "-az" then
      let a := set_animate_azimuth a true in
      match rest with
      | next :: rest' =>
          if negb (dash0 next) then
            match safe_stof next with
            | Some val => parse_loop (set_speed_azimuth a val) rest'
            | None => parse_loop a rest
            end
          else parse_loop a rest
      | [] => parse_loop a rest
      end
    else if String.eqb arg "-al" then
      let a := set_animate_altitude a true in
      match rest with
      | next :: rest' =>
          if negb (dash0 next) then
            match safe_stof next with
            | Some val => parse_loop (set_speed_altitude a val) rest'
            | None => parse_loop a rest
            end
          else parse_loop a rest
      | [] => parse_loop a rest
      end
    else if String.eqb arg "-z" || String.eqb arg "--zoom" then
      match rest with
      | [] => Exit 1 [Cerr ("error: zoom needs value" ++ nl)]
      | next :: rest' =>
          match safe_stof next with
          | None => Exit 1 [Cerr ("error: invalid zoom value" ++ nl)]
          | Some val => parse_loop (set_zoom a val) rest'
          end
      end
    else if String.eqb arg "--altitude" then
      match rest with
      | [] => Exit 1 [Cerr ("error: altitude needs value" ++ nl)]
      | next :: rest' =>
          match safe_stof next with
          | None => Exit 1 [Cerr ("error: invalid altitude value" ++ nl)]
          | Some val => parse_loop (set_altitude a val) rest'
          end
      end
    else if String.eqb arg "--azimuth" then
      match rest with
      | [] => Exit 1 [Cerr ("error: azimuth needs value" ++ nl)]
      | next :: rest' =>
          match safe_stof next with
          | None => Exit 1 [Cerr ("error: invalid azimuth value" ++ nl)]
          | Some val => parse_loop (set_azimuth a val) rest'
          end
      end
    else if String.eqb arg "--flip" then
      parse_loop (set_flip_faces a true) rest
    else if String.eqb arg "--invert-x" then
      parse_loop (set_invert_x a true) rest
    else if String.eqb arg "--invert-y" then
      parse_loop (set_invert_y a true) rest
    else if String.eqb arg "--invert-z" then
      parse_loop (set_invert_z a true) rest
    else if negb (dash0 arg) then
      if negb (empty (input_file a)) then
        Exit 1 [Cerr ("error: more arguments than expected" ++ nl)]
      else parse_loop (set_input_file a arg) rest
    else
      Exit 1 [Cerr ("unknown option: " ++ arg ++ nl); usage_hint]
  end.

(** [parse_args(argc, argv)]; [argv] is [argv[1]], ..., [argv[argc-1]]. *)
Definition parse_args (argv : list string) : parsed :=
  match parse_loop Args0 argv with
  | Exit status out => Exit status out
  | Parsed a =>
      if empty (input_file a)
      then Exit 1 [Cerr ("error: no input file" ++ nl); usage_hint]
      else Parsed a
  end.

End WithStof.

(** A reader of whole decimal numerals with an optional minus sign; the
    closed examples run [parse_args] with it in the place of
    [safe_stof]. *)
Fixpoint digits (acc : Z) (s : string) : option Z :=
  match s with
  | EmptyString => Some acc
  | String c s' =>
      let n := Z.of_N (N_of_ascii c) in
      if ((48 <=? n) && (n <=? 57))%Z
      then digits (10 * acc + (n - 48))%Z s'
      else None
  end.

Definition stof_dec (s : string) : option Q :=
  match s with
  | EmptyString => None
  | String "-"%char EmptyString => None
  | String "-"%char s' => option_map (fun n => inject_Z (- n)) (digits 0 s')
  | _ => option_map inject_Z (digits 0 s)
  end.

End Cli.

(** ** main.cpp: handle_control and main up to the render loop *)

Module Main.

Import Config Curses Colors.

(** A character constant as the [int] that [getch] returns. *)
Definition key (c : ascii) : Z := Z.of_N (N_of_ascii c).

(** What [main] does before the loop, in order.  [Object] is an absent
    class: its calls are recorded, and of the loaded object only the
    material list, which [init_colors] receives, is kept. *)
Inductive event : Type :=
| Write (o : Cli.output)
| ObjLoad (path : string) (color : bool)
| ObjNormalize
| ObjScale (factor : Q)
| ObjFlipFaces
| ObjInvertX
| ObjInvertY
| ObjInvertZ
| Ncurses (c : call)
| Getmaxyx.

(** The locals of [main] (and [g_hud_pair]) that the loop reads. *)
Record Loop : Type := mkLoop {
  cam : Cam.Camera;
  hud : bool;
  rotate : bool;
  needs_redraw : bool;
  g_hud_pair : Z
}.

(** [main] either returns before the loop or reaches its first
    iteration. *)
Inductive started : Type :=
| Exited (status : Z) (trace : list event)
| Looping (args : Cli.Args) (st : Loop) (trace : list event).

Definition entered_ncurses (trace : list event) : Prop :=
  exists c, In (Ncurses c) trace.

Definition written (trace : list event) : list Cli.output :=
  flat_map (fun e => match e with Write o => [o] | _ => [] end) trace.

Section WithEnvironment.

Variable PI : Q.
Variable safe_stof : string -> option Q.

(** [Object::load(path, color_support)]: the materials of the loaded
    object, or nothing when it returns [false]. *)
Variable load : string -> bool -> option (list Material).

Variable term : Terminal.

Definition handle_control (ch : Z) (c : Cam.Camera) : Cam.Camera :=
  if existsb (Z.eqb ch) [KEY_LEFT; key "h"; key "H"; key "a"; key "A"]
  then Cam.rotate_left PI ANGLE_STEP c
  else if existsb (Z.eqb ch) [KEY_RIGHT; key "l"; key "L"; key "d"; key "D"]
  then Cam.rotate_right PI ANGLE_STEP c
  else if existsb (Z.eqb ch) [KEY_UP; key "k"; key "K"; key "w"; key "W"]
  then Cam.rotate_up PI ANGLE_STEP c
  else if existsb (Z.eqb ch) [KEY_DOWN; key "j"; key "J"; key "s"; key "S"]
  then Cam.rotate_down PI ANGLE_STEP c
  else if existsb (Z.eqb ch) [key "+"; key "="; key "i"; key "I"]
  then Cam.zoom_in ZOOM_STEP c
  else if existsb (Z.eqb ch) [key "-"; key "o"; key "O"]
  then Cam.zoom_out ZOOM_STEP c
  else c.

(** The camera as [main] sets it up: [Camera cam(args.zoom)], then the
    two assignments to [cam.altitude] and [cam.azimuth]. *)
Definition initial_camera (args : Cli.Args) : Cam.Camera :=
  let cam := Cam.Camera1 (Cli.zoom args) in
  let cam := Cam.mkCamera (Cam.azimuth cam)
                          (Mathematics.deg2rad PI (Cli.altitude args))
                          (Cam.zoom cam) in
  Cam.mkCamera (Mathematics.deg2rad PI (Cli.azimuth args))
               (Cam.altitude cam) (Cam.zoom cam).

(** [main], from its first statement to the [while (true)]. *)
Definition main_start (argv : list string) : started :=
  match Cli.parse_args safe_stof argv with
  | Cli.Exit status out => Exited status (map Write out)
  | Cli.Parsed args =>
      let path := Cli.input_file args in
      match load path (Cli.color_support args) with
      | None => Exited 1 [ObjLoad path (Cli.color_support args)]
      | Some materials =>
          let colors :=
            if Cli.color_support args
            then init_colors term 0 materials (Cli.theme args)
            else ([], 0%Z) in
          Looping args
            (mkLoop (initial_camera args) false
                    (Cli.animate_altitude args || Cli.animate_azimuth args)
                    true (snd colors))
            ([ObjLoad path (Cli.color_support args); ObjNormalize; ObjScale 3]
               ++ (if Cli.flip_faces args then [ObjFlipFaces] else [])
               ++ (if Cli.invert_x args then [ObjInvertX] else [])
               ++ (if Cli.invert_y args then [ObjInvertY] else [])
               ++ (if Cli.invert_z args then [ObjInvertZ] else [])
               ++ map Ncurses init_ncurses
               ++ map Ncurses (fst colors)
               ++ [Getmaxyx])
      end
  end.

End WithEnvironment.

End Main.

(** ** main.cpp: the render loop *)

Module Frame.

Import Config Curses.

(** What one iteration puts on the screen.  [Buffer] and [Renderer] are
    absent classes and [render_hud] formats with absent helpers: the
    calls are recorded with the values they are passed. *)
Inductive drawn : Type :=
| Resize                  (* getmaxyx, then a new Buffer *)
| Render (c : Cam.Camera) (static_light color : bool)
                          (* buf.clear, Renderer::render, move, buf.printw *)
| RenderHud (c : Cam.Camera) (fps : Q) (pair : Z)
| Refresh
| Endwin.

(** An iteration ends at the [break] or at the bottom of the loop. *)
Inductive step : Type :=
| Break (st : Main.Loop)
| Next (st : Main.Loop).

(** [dt > 0.f ? 1.f / dt : 0.f] *)
Definition fps_of (dt : Q) : Q := if Std.Qltb 0 dt then 1 / dt else 0.

Definition TAB : Z := 9.

Section WithArgs.

Variable PI : Q.
Variable args : Cli.Args.

(** The [if (rotate)] block. *)
Definition animate (dt : Q) (st : Main.Loop) : Main.Loop :=
  if Main.rotate st then
    let c := Main.cam st in
    let c := if Cli.animate_altitude args
             then Cam.rotate_down PI (Cli.speed_altitude args * dt) c
             else c in
    let c := if Cli.animate_azimuth args
             then Cam.rotate_left PI (Cli.speed_azimuth args * dt) c
             else c in
    Main.mkLoop c (Main.hud st) (Main.rotate st) true (Main.g_hud_pair st)
  else st.

(** The redrawing at the end of an iteration. *)
Definition redraw (fps : Q) (st : Main.Loop) : Main.Loop * list drawn :=
  if Main.needs_redraw st then
    (Main.mkLoop (Main.cam st) (Main.hud st) (Main.rotate st) false
                 (Main.g_hud_pair st),
     Render (Main.cam st) (Cli.static_light args) (Cli.color_support args)
       :: (if Main.hud st
           then [RenderHud (Main.cam st) fps (Main.g_hud_pair st)]
           else [])
       ++ [Refresh])
  else if Main.hud st then
    (st, [RenderHud (Main.cam st) fps (Main.g_hud_pair st); Refresh])
  else (st, []).

(** One iteration of [while (true)]: [dt] is the time since the
    previous iteration as the clock gives it, [ch] what [getch]
    returns. *)
Definition frame (dt : Q) (ch : Z) (st : Main.Loop) : step * list drawn :=
  let fps := fps_of dt in
  let st := animate dt st in
  if (ch =? KEY_RESIZE)%Z then
    let r := redraw fps (Main.mkLoop (Main.cam st) (Main.hud st)
                           (Main.rotate st) true (Main.g_hud_pair st)) in
    (Next (fst r), Resize :: snd r)
  else if (ch =? Main.key "q")%Z || (ch =? Main.key "Q")%Z then
    (Break st, [])
  else if (ch =? TAB)%Z then
    let r := redraw fps (Main.mkLoop (Main.cam st) (negb (Main.hud st))
                           (Main.rotate st) true (Main.g_hud_pair st)) in
    (Next (fst r), snd r)
  else if negb (ch =? ERR)%Z then
    let r := redraw fps (Main.mkLoop (Main.handle_control PI ch (Main.cam st))
                           (Main.hud st) false true (Main.g_hud_pair st)) in
    (Next (fst r), snd r)
  else
    let r := redraw fps st in
    (Next (fst r), snd r).

(** The loop over the clock readings and keys [inputs], and the
    [endwin] after the [break]; with the inputs used up the loop is
    still running. *)
Fixpoint frames (inputs : list (Q * Z)) (st : Main.Loop)
    : step * list drawn :=
  match inputs with
  | [] => (Next st, [])
  | (dt, ch) :: inputs' =>
      match frame dt ch st with
      | (Break st', out) => (Break st', out ++ [Endwin])
      | (Next st', out) =>
          let r := frames inputs' st' in
          (fst r, out ++ snd r)
      end
  end.

End WithArgs.

Definition state_of (s : step) : Main.Loop :=
  match s with
  | Break st => st
  | Next st => st
  end.

(** The [Render] calls among what was drawn. *)
Fixpoint renders (out : list drawn) : list Cam.Camera :=
  match out with
  | [] => []
  | Render c _ _ :: out' => c :: renders out'
  | _ :: out' => renders out'
  end.

End Frame.

(** ** binary32

    The [float] of the program as IEEE 754 binary32, round to nearest
    even, with the operations of [SpecFloat] at precision 24 and
    maximal exponent 128.  The modules above read a [float] as the
    rational it denotes and compute exactly; the modules below compute
    as the machine does, with rounding, infinities and NaN, and are
    used where that makes a difference. *)

Module F32.

Definition prec : Z := 24.
Definition emax : Z := 128.

Definition float : Type := spec_float.

Definition nan : float := S754_nan.
Definition zero : float := S754_zero false.

Definition is_nan (x : float) : bool :=
  match x with
  | S754_nan => true
  | _ => false
  end.

Definition add : float -> float -> float := SFadd prec emax.
Definition sub : float -> float -> float := SFsub prec emax.
Definition mul : float -> float -> float := SFmul prec emax.
Definition div : float -> float -> float := SFdiv prec emax.
Definition opp : float -> float := SFopp.

(** [x < y] and [x <= y]; both false when one side is NaN. *)
Definition lt (x y : float) : bool := SFltb x y.
Definition le (x y : float) : bool := SFleb x y.

(** [static_cast<float>] of an integer. *)
Definition of_int (n : Z) : float := binary_normalize prec emax n 0 false.

(** The binary32 number nearest to [m * 2 ^ e]. *)
Definition of_dyadic (m e : Z) : float := binary_normalize prec emax m e false.

Definition pow2 (e : Z) : Q :=
  if (0 <=? e)%Z then inject_Z (2 ^ e) else 1 # Z.to_pos (2 ^ (- e)).

(** The rational a finite [float] denotes. *)
Definition value (x : float) : option Q :=
  match x with
  | S754_zero _ => Some 0
  | S754_finite s m e =>
      Some (inject_Z (if s then Zneg m else Zpos m) * pow2 e)
  | S754_infinity _ => None
  | S754_nan => None
  end.

(** The same, 0 for what is not finite. *)
Definition exact (x : float) : Q :=
  match value x with
  | Some q => q
  | None => 0
  end.

(** [std::min], [std::max] and [std::clamp] on [float]. *)
Definition min (a b : float) : float := if lt b a then b else a.
Definition max (a b : float) : float := if lt a b then b else a.
Definition clamp (v lo hi : float) : float :=
  if lt v lo then lo else if lt hi v then hi else v.

(** The constants of config.h the camera and the loop use. *)
Definition ZOOM_START : float := S754_finite false 8388608 (-23).  (* 1.0f *)
Definition ZOOM_STEP : float := S754_finite false 13421773 (-27).  (* 0.1f *)
Definition ZOOM_MIN : float := S754_finite false 13421773 (-27).   (* 0.10f *)
Definition ZOOM_MAX : float := S754_finite false 10485760 (-21).   (* 5.00f *)
Definition FRAME_DURATION : float := div (of_int 1) (of_int 60).   (* 1.0f / 60.0f *)

(** The binary32 number nearest to pi. *)
Definition PI_f32 : float := S754_finite false 13176795 (-22).

End F32.

(** ** utils/mathematics.h (absent), in binary32 *)

Module MathematicsF.

Import F32.

(** Modelled from the spec: [deg2rad] of the absent
    [utils/mathematics.h], "the given angle (converted to radians)",
    computed in [float]: [deg * PI / 180]. *)
Definition deg2rad (PI deg : float) : float :=
  div (mul deg PI) (of_int 180).

(** A rational with a power of two as denominator, rounded to
    binary32. *)
Definition round_dyadic (q : Q) : float :=
  let r := Qred q in
  of_dyadic (Qnum r) (- Z.log2 (Zpos (Qden r))).

(** Modelled from the spec: [rad_norm] of the absent
    [utils/mathematics.h], "result normalized into the canonical angle
    range" (-PI, PI]: an angle in the range is returned as it is, any
    other is moved by the whole number of turns that brings it there,
    the result rounded once; NaN for what is not finite. *)
Definition rad_norm (PI rad : float) : float :=
  match value PI, value rad with
  | Some p, Some x =>
      if Std.Qltb (- p) x && Qle_bool x p then rad
      else round_dyadic (Mathematics.rad_norm p x)
  | _, _ => nan
  end.

End MathematicsF.

(** ** entities/view/camera.h, in binary32 *)

Module CamF.

Import F32.

Record Camera : Type := mkCamera {
  azimuth : float;
  altitude : float;
  zoom : float
}.

(** [Camera()] *)
Definition Camera0 : Camera :=
  mkCamera zero zero (clamp ZOOM_START ZOOM_MIN ZOOM_MAX).

(** [explicit Camera(float zoom)] *)
Definition Camera1 (zoom : float) : Camera :=
  mkCamera zero zero (clamp zoom ZOOM_MIN ZOOM_MAX).

Section WithMathematics.

(** [PI], [rad_norm] and [deg2rad] of the absent
    [utils/mathematics.h]. *)
Variable PI : float.
Variable rad_norm : float -> float.
Variable deg2rad : float -> float.

(** [-PI / 2] and [PI / 2]. *)
Definition lower : float := div (opp PI) (of_int 2).
Definition upper : float := div PI (of_int 2).

(** [Camera(float azimuth, float altitude, float zoom)] *)
Definition Camera3 (azimuth altitude zoom : float) : Camera :=
  mkCamera (rad_norm azimuth)
           (clamp altitude lower upper)
           (clamp zoom ZOOM_MIN ZOOM_MAX).

Definition rotate_left (degree : float) (c : Camera) : Camera :=
  mkCamera (rad_norm (add (azimuth c) (deg2rad degree))) (altitude c) (zoom c).

Definition rotate_right (degree : float) (c : Camera) : Camera :=
  mkCamera (rad_norm (sub (azimuth c) (deg2rad degree))) (altitude c) (zoom c).

Definition rotate_up (degree : float) (c : Camera) : Camera :=
  mkCamera (azimuth c) (rad_norm (sub (altitude c) (deg2rad degree))) (zoom c).

Definition rotate_down (degree : float) (c : Camera) : Camera :=
  mkCamera (azimuth c) (rad_norm (sub (altitude c) (deg2rad degree))) (zoom c).

End WithMathematics.

Definition zoom_in (step : float) (c : Camera) : Camera :=
  mkCamera (azimuth c) (altitude c) (min (add (zoom c) step) ZOOM_MAX).

Definition zoom_out (step : float) (c : Camera) : Camera :=
  mkCamera (azimuth c) (altitude c) (max (sub (zoom c) step) ZOOM_MIN).

End CamF.

(** ** main.cpp: the clock of the render loop

    A reading of [SteadyClock::now()] is its count of nanoseconds, a
    64-bit integer.  [now + std::chrono::duration<float>(FRAME_DURATION)]
    has the common type of the two, a time point counted in [float]
    nanoseconds: the reading is converted to [float], the duration is
    scaled to nanoseconds in [float], and the sum is a [float]. *)

Module Clock.

Import F32.

(** 10^9, the nanoseconds in a second. *)
Definition giga : float := of_int 1000000000.

(** [std::chrono::duration<float>(now - last).count()], seconds. *)
Definition dt_of (last now : Z) : float := div (of_int (now - last)) giga.

(** [frame_deadline], in nanoseconds. *)
Definition frame_deadline (now : Z) : float :=
  add (of_int now) (mul FRAME_DURATION giga).

(** [sleep_until(deadline)] called when the clock reads [clock] sleeps
    when that reading, in the deadline's type, is before the
    deadline, and returns at once otherwise. *)
Definition sleeps (deadline : float) (clock : Z) : bool :=
  lt (of_int clock) deadline.

(** What the clock and the keyboard give one iteration: the reading
    [now] at its top, the key from [getch], and the reading when
    [sleep_until] is called. *)
Record tick : Type := mkTick { now : Z; ch : Z; at_sleep : Z }.

(** What the loop does, in order: what it draws, and the
    [sleep_until(frame_deadline)] that ends an iteration, with whether
    that call sleeps. *)
Inductive timed : Type :=
| Drawn (d : Frame.drawn)
| SleepUntil (deadline : float) (slept : bool).

Section WithArgs.

Variable PI : Q.
Variable args : Cli.Args.

(** The loop with its clock.  [last] and the reading at the top of an
    iteration give [dt], and [last = now] follows; an iteration that
    goes on ends with [sleep_until], one that breaks goes to [endwin];
    with the ticks used up the loop is still running. *)
Fixpoint timed_frames (last : Z) (ticks : list tick) (st : Main.Loop)
    : Frame.step * list timed :=
  match ticks with
  | [] => (Frame.Next st, [])
  | t :: ticks' =>
      match Frame.frame PI args (exact (dt_of last (now t))) (ch t) st with
      | (Frame.Break st', out) =>
          (Frame.Break st', map Drawn out ++ [Drawn Frame.Endwin])
      | (Frame.Next st', out) =>
          let r := timed_frames (now t) ticks' st' in
          (fst r,
           map Drawn out
             ++ SleepUntil (frame_deadline (now t))
                           (sleeps (frame_deadline (now t)) (at_sleep t))
             :: snd r)
      end
  end.

End WithArgs.

(** The [dt] and key of each iteration. *)
Fixpoint dts (last : Z) (ticks : list tick) : list (Q * Z) :=
  match ticks with
  | [] => []
  | t :: ticks' => (exact (dt_of last (now t)), ch t) :: dts (now t) ticks'
  end.

Fixpoint drawn_of (trace : list timed) : list Frame.drawn :=
  match trace with
  | [] => []
  | Drawn d :: trace' => d :: drawn_of trace'
  | SleepUntil _ _ :: trace' => drawn_of trace'
  end.

Fixpoint sleeps_of (trace : list timed) : list (float * bool) :=
  match trace with
  | [] => []
  | Drawn _ :: trace' => sleeps_of trace'
  | SleepUntil deadline slept :: trace' => (deadline, slept) :: sleeps_of trace'
  end.

(** The deadline and the sleep that each tick would give. *)
Definition sleep_of (t : tick) : float * bool :=
  (frame_deadline (now t), sleeps (frame_deadline (now t)) (at_sleep t)).

End Clock.

(** ** entities/geometry/object.h (absent): the loader *)

Module Loader.

(** Modelled from the spec: [Object::load] of the absent
    [entities/geometry/object.h], a loader that "may fail, in which
    case the system must abort startup with a non-zero exit status and
    a human-readable message": a load gives the materials of the
    object, or fails with the message it has printed. *)
Definition Loader : Type :=
  string -> bool -> list Colors.Material + string.

(** The loader as [main] sees it: [load] returns [true] or [false]. *)
Definition load_of (L : Loader) (path : string) (color : bool)
    : option (list Colors.Material) :=
  match L path color with
  | inl materials => Some materials
  | inr _ => None
  end.

(** What the process has printed: by [main] itself, or by the loader
    inside a call of [Object::load]. *)
Inductive said : Type :=
| By_main (o : Cli.output)
| By_loader (message : string).

Definition printed (L : Loader) (trace : list Main.event) : list said :=
  flat_map (fun e =>
              match e with
              | Main.Write o => [By_main o]
              | Main.ObjLoad path color =>
                  match L path color with
                  | inl _ => []
                  | inr message => [By_loader message]
                  end
              | _ => []
              end) trace.

End Loader.

(** ** Vocabulary of the properties *)

(** The keys of [handle_control], by what they do. *)
Definition horizontal_keys : list Z :=
  [Curses.KEY_LEFT; Main.key "h"; Main.key "H"; Main.key "a"; Main.key "A";
   Curses.KEY_RIGHT; Main.key "l"; Main.key "L"; Main.key "d"; Main.key "D"].

Definition vertical_keys : list Z :=
  [Curses.KEY_UP; Main.key "k"; Main.key "K"; Main.key "w"; Main.key "W";
   Curses.KEY_DOWN; Main.key "j"; Main.key "J"; Main.key "s"; Main.key "S"].

Definition zoom_keys : list Z :=
  [Main.key "+"; Main.key "="; Main.key "i"; Main.key "I";
   Main.key "-"; Main.key "o"; Main.key "O"].

Definition quit_keys : list Z := [Main.key "q"; Main.key "Q"].

(** [n] calls of [f] in a row. *)
Fixpoint repeat_call {A : Type} (f : A -> A) (n : nat) (a : A) : A :=
  match n with
  | O => a
  | S n' => repeat_call f n' (f a)
  end.

(** The words [-c] takes as a theme. *)
Definition theme_words : list string := ["dark"; "light"; "transparent"]%string.

(** The [init_color] calls among the calls made. *)
Fixpoint init_color_components (cs : list Curses.call) : list Z :=
  match cs with
  | [] => []
  | Curses.InitColor _ r g b :: cs' => r :: g :: b :: init_color_components cs'
  | _ :: cs' => init_color_components cs'
  end.

(** The backgrounds handed to [init_pair]. *)
Fixpoint init_pair_backgrounds (cs : list Curses.call) : list Z :=
  match cs with
  | [] => []
  | Curses.InitPair _ _ bg :: cs' => bg :: init_pair_backgrounds cs'
  | _ :: cs' => init_pair_backgrounds cs'
  end.


(** "[v] clamped to [[lo, hi]]", in words: [lo] below the interval,
    [hi] above it, [v] itself inside. *)
Definition clamped_to (v lo hi r : Q) : Prop :=
  (v < lo /\ r == lo) \/ (hi < v /\ r == hi) \/ (lo <= v <= hi /\ r == v).

(** The next argument, if there is one, begins with a dash: an option
    before it that may take a value ([-c], [-az], [-al]) takes none. *)
Definition next_is_option (rest : list string) : Prop :=
  match rest with
  | [] => True
  | r :: _ => Cli.dash0 r = true
  end.

(** The spellings [parse_args] compares an argument with. *)
Definition known_options : list string :=
  ["-h"; "--help"; "-v"; "--version"; "-c"; "--color"; "-l"; "--light";
   "-az"; "-al"; "-z"; "--zoom"; "--altitude"; "--azimuth"; "--flip";
   "--invert-x"; "--invert-y"; "--invert-z"]%string.

(** An argument that begins with a dash and is none of them. *)
Definition unknown_flag (arg : string) : bool :=
  Cli.dash0 arg && negb (existsb (String.eqb arg) known_options).

Definition is_cerr (o : Cli.output) : Prop :=
  match o with
  | Cli.Cerr _ => True
  | _ => False
  end.

(** What an exit of [parse_args] looks like: status 0 after the help or
    the version text, or status 1 after at least one line, and nothing
    but lines, on standard error. *)
Definition exit_report (status : Z) (out : list Cli.output) : Prop :=
  (status = 0%Z /\ (out = [Cli.Cout_help] \/ out = [Cli.Cout_version])) \/
  (status = 1%Z /\ out <> [] /\ Forall is_cerr out).

(** An environment for closed examples: [PI] as binary32 has it, the
    decimal reader, a loader that knows one file, and a terminal with
    256 colour pairs. *)
Definition load_only (name : string) (path : string) (color : bool)
    : option (list Colors.Material) :=
  if String.eqb path name then Some [] else None.

Definition xterm : Curses.Terminal := Curses.mkTerminal true true 256.

(** A loader for closed examples that knows one file and reports any
    other path. *)
Definition loader_only (name : string) : Loader.Loader :=
  fun path color =>
    if String.eqb path name then inl []
    else inr ("error: cannot open " ++ path)%string.

Definition run (argv : list string) : Main.started :=
  Main.main_start Mathematics.PI_f32 Cli.stof_dec
                  (load_only "cube.obj") xterm argv.

(** A [float] between two others; false of NaN. *)
Definition within (lo hi r : F32.float) : Prop :=
  F32.le lo r = true /\ F32.le r hi = true.

(** "[v] clamped to [[lo, hi]]" on [float]. *)
Definition clamped_to_f (v lo hi r : F32.float) : Prop :=
  (F32.lt v lo = true /\ r = lo) \/
  (F32.lt hi v = true /\ r = hi) \/
  (within lo hi v /\ r = v).





(** * Properties *)

(** ** Comparison, minimum, maximum and clamp *)

Lemma Qltb_lt (x y : Q) : Std.Qltb x y = true <-> x < y.
Proof.
  unfold Std.Qltb. rewrite negb_true_iff, <- not_true_iff_false, Qle_bool_iff.
  split; [apply Qnot_le_lt | apply Qlt_not_le].
Qed.

Lemma Qltb_ge (x y : Q) : Std.Qltb x y = false <-> y <= x.
Proof.
  unfold Std.Qltb. rewrite negb_false_iff. apply Qle_bool_iff.
Qed.

Ltac by_cases_on_lt :=
  repeat match goal with
  | |- context [Std.Qltb ?a ?b] =>
      let E := fresh "E" in
      destruct (Std.Qltb a b) eqn:E;
      [apply Qltb_lt in E | apply Qltb_ge in E]
  end.

Lemma clamp_bounds (v lo hi : Q) :
  lo <= hi -> lo <= Std.clamp v lo hi <= hi.
Proof.
  intros Hle. unfold Std.clamp. by_cases_on_lt; lra.
Qed.

Lemma clamp_clamped_to (v lo hi : Q) :
  lo <= hi -> clamped_to v lo hi (Std.clamp v lo hi).
Proof.
  intros Hle. unfold clamped_to, Std.clamp. by_cases_on_lt.
  - left. split; [assumption | reflexivity].
  - right. left. split; [assumption | reflexivity].
  - right. right. split; [lra | reflexivity].
Qed.

Lemma min_upper (a b : Q) : Std.min a b <= b.
Proof. unfold Std.min. by_cases_on_lt; lra. Qed.

Lemma max_lower (a b : Q) : b <= Std.max a b.
Proof. unfold Std.max. by_cases_on_lt; lra. Qed.

Lemma min_lower (a b lo : Q) : lo <= a -> lo <= b -> lo <= Std.min a b.
Proof. unfold Std.min. by_cases_on_lt; lra. Qed.

Lemma max_upper (a b hi : Q) : a <= hi -> b <= hi -> Std.max a b <= hi.
Proof. unfold Std.max. by_cases_on_lt; lra. Qed.

Lemma zoom_bounds_ordered : Config.ZOOM_MIN <= Config.ZOOM_MAX.
Proof. unfold Config.ZOOM_MIN, Config.ZOOM_MAX. lra. Qed.

(** ** Angle normalisation *)

Section Normalisation.

Import Mathematics.

Variable PI : Q.
Hypothesis PI_pos : 0 < PI.

Lemma rad_norm_turns (rad : Q) :
  rad_norm PI rad = rad - inject_Z (turns PI rad) * (2 * PI).
Proof. reflexivity. Qed.







(** No angle a whole number of turns from a half turn lies within a
    quarter turn of 0: whatever range an angle is normalised into, a
    half turn is outside [[-PI/2, PI/2]]. *)
Lemma half_turn_off_quarter (k : Z) :
  ~ (- PI / 2 <= PI + inject_Z k * (2 * PI) <= PI / 2).
Proof.
  intros [Hlo Hhi].
  assert (Hq : 0 < PI / 2) by (apply Qlt_shift_div_l; lra).
  assert (E : - PI / 2 == - (PI / 2)) by field.
  assert (E2 : PI == PI / 2 + PI / 2) by field.
  rewrite E in Hlo.
  set (q := PI / 2) in *. clearbody q.
  destruct (Z_lt_le_dec k 0) as [Hneg | Hpos].
  - assert (Hk : inject_Z k <= - (1)).
    { change (- (1)) with (inject_Z (-1)). rewrite <- Zle_Qle. lia. }
    assert (inject_Z k * (2 * PI) <= - (1) * (2 * PI))
      by (apply Qmult_le_compat_r; lra).
    lra.
  - assert (Hk : 0 <= inject_Z k).
    { change 0 with (inject_Z 0). rewrite <- Zle_Qle. exact Hpos. }
    assert (0 * (2 * PI) <= inject_Z k * (2 * PI))
      by (apply Qmult_le_compat_r; lra).
    lra.
Qed.

Lemma quarter_turns_ordered : - PI / 2 <= PI / 2.
Proof.
  setoid_replace (- PI / 2) with (- (PI / 2)) by field.
  assert (0 < PI / 2) by (apply Qlt_shift_div_l; lra).
  lra.
Qed.

End Normalisation.

(** ** The camera *)

Section CameraFacts.

Import Config Mathematics Cam.





(** The same at any [PI]: a rotation by 180 degrees from altitude 0
    stores a half turn, which is outside [[-PI/2, PI/2]]. *)
Lemma rotate_down_half_turn_escapes (PI : Q) (PI_pos : 0 < PI) (az z : Q) :
  ~ altitude_clamped PI (altitude (rotate_down PI 180 (mkCamera az 0 z))).
Proof.
  unfold altitude_clamped, rotate_down; simpl.
  rewrite rad_norm_turns.
  set (k := turns PI (0 - deg2rad PI 180)).
  assert (E : 0 - deg2rad PI 180 - inject_Z k * (2 * PI)
              == PI + inject_Z (- k - 1) * (2 * PI)).
  { unfold deg2rad, Z.sub.
    rewrite inject_Z_plus, !inject_Z_opp. change (inject_Z 1) with 1.
    field. }
  rewrite E. apply half_turn_off_quarter. exact PI_pos.
Qed.

(** C2.  [rotate_up] and [rotate_down] are one and the same function of
    the camera: both store [rad_norm(altitude - deg2rad(d))] and leave
    the other two fields alone; so the keys for "up" and the keys for
    "down" move the camera the same way. *)
Theorem rotate_up_is_rotate_down (PI : Q) (c : Camera) (d : Q) :
  rotate_up PI d c = rotate_down PI d c /\
  rotate_up PI d c
    = mkCamera (azimuth c) (rad_norm PI (altitude c - deg2rad PI d)) (zoom c) /\
  Main.handle_control PI Curses.KEY_UP c
    = Main.handle_control PI Curses.KEY_DOWN c /\
  Main.handle_control PI (Main.key "k") c
    = Main.handle_control PI (Main.key "j") c /\
  Main.handle_control PI (Main.key "w") c
    = Main.handle_control PI (Main.key "s") c.
Proof. repeat split. Qed.

(** C3 as stated fails.  A negative step takes [zoom_in] below
    [ZOOM_MIN] (1 + -10 = -9) and [zoom_out] above [ZOOM_MAX]
    (1 - -10 = 11); and a zoom field that is out of range stays so. *)
Lemma zoom_step_escapes :
  zoom (zoom_in (- (10)) Camera0) == - (9) /\
  ~ zoom_clamped (zoom (zoom_in (- (10)) Camera0)) /\
  zoom (zoom_out (- (10)) Camera0) == 11 /\
  ~ zoom_clamped (zoom (zoom_out (- (10)) Camera0)) /\
  ~ zoom_clamped (zoom (zoom_in ZOOM_STEP (mkCamera 0 0 (- (3))))).
Proof.
  unfold zoom_clamped.
  repeat split.
  - intros [Hlo _]. apply Hlo. reflexivity.
  - intros [_ Hhi]. apply Hhi. reflexivity.
  - intros [Hlo _]. apply Hlo. reflexivity.
Qed.

End CameraFacts.

(** ** The command line *)

Section CliFacts.

Import Cli.

Variable safe_stof : string -> option Q.

Lemma by_length {A : Type} (P : list A -> Prop) :
  (forall l, (forall l', (List.length l' < List.length l)%nat -> P l') -> P l) ->
  forall l, P l.
Proof.
  intros step l.
  assert (H : forall n l', (List.length l' < n)%nat -> P l').
  { induction n as [| n IH]; intros l' Hlt; [lia |].
    apply step. intros l'' Hlt'. apply IH. lia. }
  apply (H (S (List.length l))). lia.
Qed.

Ltac split_ifs :=
  repeat match goal with
  | |- context [if ?b then _ else _] => destruct b eqn:?
  | |- context [match safe_stof ?s with _ => _ end] =>
      destruct (safe_stof s) eqn:?
  end.

(** The loop run over [pre ++ rest], when it gets through [pre] and
    [rest] starts with an option, carries on over [rest] from the
    arguments [pre] left. *)
Lemma parse_loop_app (pre rest : list string) :
  next_is_option rest ->
  forall a a', parse_loop safe_stof a pre = Parsed a' ->
  parse_loop safe_stof a (pre ++ rest) = parse_loop safe_stof a' rest.
Proof.
  intros Hrest. induction pre as [pre IH] using by_length.
  intros a a'.
  destruct pre as [| arg pre'].
  - simpl. intros [= ->]. reflexivity.
  - assert (IH1 : forall a a', parse_loop safe_stof a pre' = Parsed a' ->
      parse_loop safe_stof a (pre' ++ rest) = parse_loop safe_stof a' rest)
      by (apply IH; simpl; lia).
    destruct pre' as [| next pre''].
    + cbn [parse_loop app].
      split_ifs; try discriminate; try (intros [= <-]; try reflexivity).
      all: try (destruct rest as [| r rest'];
                [reflexivity
                | simpl in Hrest; cbn [parse_loop]; rewrite Hrest; reflexivity]).
    + assert (IH2 : forall a a', parse_loop safe_stof a pre'' = Parsed a' ->
        parse_loop safe_stof a (pre'' ++ rest) = parse_loop safe_stof a' rest)
        by (apply IH; simpl; lia).
      cbn [parse_loop app] in *.
      split_ifs; try discriminate; auto.
Qed.

Lemma exit_report_cerr (text : string) (more : list output) :
  Forall is_cerr more -> exit_report 1 (Cerr text :: more).
Proof.
  intros Hmore. right. split; [reflexivity |].
  split; [discriminate |]. constructor; [exact I | exact Hmore].
Qed.

Lemma parse_loop_exit (argv : list string) :
  forall a status out,
  parse_loop safe_stof a argv = Exit status out -> exit_report status out.
Proof.
  induction argv as [argv IH] using by_length.
  intros a status out.
  destruct argv as [| arg rest]; [discriminate |].
  assert (IH1 : forall a, parse_loop safe_stof a rest = Exit status out ->
                          exit_report status out)
    by (intro; apply IH; simpl; lia).
  assert (Hhelp : exit_report 0 [Cout_help]) by (left; auto).
  assert (Hversion : exit_report 0 [Cout_version]) by (left; auto).
  destruct rest as [| next rest'].
  - cbn [parse_loop].
    split_ifs; try discriminate; intros [= <- <-];
      auto using exit_report_cerr, Forall_nil, Forall_cons.
    apply exit_report_cerr. repeat constructor.
  - assert (IH2 : forall a, parse_loop safe_stof a rest' = Exit status out ->
                            exit_report status out)
      by (intro; apply IH; simpl; lia).
    cbn [parse_loop] in *.
    split_ifs; eauto; intros [= <- <-];
      auto using exit_report_cerr, Forall_nil, Forall_cons.
    apply exit_report_cerr. repeat constructor.
Qed.

Lemma parse_args_exit (argv : list string) (status : Z) (out : list output) :
  parse_args safe_stof argv = Exit status out -> exit_report status out.
Proof.
  unfold parse_args.
  destruct (parse_loop safe_stof Args0 argv) as [st o | a] eqn:E.
  - intros [= <- <-]. apply (parse_loop_exit _ _ _ _ E).
  - destruct (empty (input_file a)); [| discriminate].
    intros [= <- <-]. apply exit_report_cerr. repeat constructor.
Qed.

Lemma parse_args_has_file (argv : list string) (a : Args) :
  parse_args safe_stof argv = Parsed a ->
  parse_loop safe_stof Args0 argv = Parsed a /\ empty (input_file a) = false.
Proof.
  unfold parse_args.
  destruct (parse_loop safe_stof Args0 argv) as [st o | a0]; [discriminate |].
  destruct (empty (input_file a0)) eqn:E; [discriminate |].
  intros [= <-]. split; [reflexivity | exact E].
Qed.

Lemma unknown_flag_exits (a : Args) (flag : string) (rest : list string) :
  unknown_flag flag = true ->
  parse_loop safe_stof a (flag :: rest)
  = Exit 1 [Cerr ("unknown option: " ++ flag ++ nl); usage_hint].
Proof.
  unfold unknown_flag, known_options. cbn [existsb].
  rewrite andb_true_iff, negb_true_iff.
  intros [Hdash Hnone].
  repeat (apply orb_false_elim in Hnone; destruct Hnone as [? Hnone]).
  cbn [parse_loop].
  repeat match goal with
  | H : String.eqb flag _ = false |- _ => rewrite H; clear H
  end.
  rewrite Hdash. reflexivity.
Qed.

Lemma prefix_then_exit (pre rest : list string) (a : Args)
    (status : Z) (out : list output) :
  next_is_option rest ->
  parse_loop safe_stof Args0 pre = Parsed a ->
  parse_loop safe_stof a rest = Exit status out ->
  parse_args safe_stof (pre ++ rest) = Exit status out.
Proof.
  intros Hrest Hpre Hexit. unfold parse_args.
  rewrite (parse_loop_app pre rest Hrest _ _ Hpre), Hexit. reflexivity.
Qed.

End CliFacts.

(** ** Start-up *)

Section StartFacts.

Import Cli Main.

Variable PI : Q.
Variable safe_stof : string -> option Q.
Variable load : string -> bool -> option (list Colors.Material).
Variable term : Curses.Terminal.

Local Abbreviation start := (main_start PI safe_stof load term).

Lemma no_ncurses_in_writes (out : list output) :
  ~ entered_ncurses (map Write out).
Proof.
  intros [c Hin]. apply in_map_iff in Hin.
  destruct Hin as (o & Ho & _). discriminate Ho.
Qed.

Lemma start_of_exit (argv : list string) (status : Z) (out : list output) :
  parse_args safe_stof argv = Exit status out ->
  start argv = Exited status (map Write out).
Proof. unfold main_start. intros ->. reflexivity. Qed.

Lemma start_exited (argv : list string) (status : Z) (trace : list event) :
  start argv = Exited status trace ->
  (exists out, parse_args safe_stof argv = Exit status out /\
               trace = map Write out) \/
  (exists a, parse_args safe_stof argv = Parsed a /\
             load (input_file a) (color_support a) = None /\
             status = 1%Z /\
             trace = [ObjLoad (input_file a) (color_support a)]).
Proof.
  unfold main_start.
  destruct (parse_args safe_stof argv) as [st out | a] eqn:E.
  - intros [= <- <-]. left. exists out. auto.
  - destruct (load (input_file a) (color_support a)) eqn:L; [discriminate |].
    intros [= <- <-]. right. exists a. auto.
Qed.

Lemma start_looping (argv : list string) (args : Args) (st : Loop)
    (trace : list event) :
  start argv = Looping args st trace ->
  parse_args safe_stof argv = Parsed args /\
  (exists materials,
     load (input_file args) (color_support args) = Some materials) /\
  cam st = initial_camera PI args.
Proof.
  unfold main_start.
  destruct (parse_args safe_stof argv) as [status out | a]; [discriminate |].
  destruct (load (input_file a) (color_support a)) as [ms |] eqn:L;
    [| discriminate].
  intros [= <- <- _]. split; [reflexivity |].
  split; [exists ms; exact L | reflexivity].
Qed.

Lemma exited_before_ncurses (argv : list string) (status : Z)
    (trace : list event) :
  start argv = Exited status trace -> ~ entered_ncurses trace.
Proof.
  intros H. apply start_exited in H.
  destruct H as [(out & _ & ->) | (a & _ & _ & _ & ->)].
  - apply no_ncurses_in_writes.
  - intros [c [Hin | []]]. discriminate Hin.
Qed.

End StartFacts.

Section StartClaims.

Import Cli Main.

(** C4, as amended.  Whenever [main] reaches the render loop, the
    camera it enters with has its zoom clamped to
    [[ZOOM_MIN, ZOOM_MAX]] (the [--zoom] value went through the
    one-argument constructor), while altitude and azimuth are the
    [--altitude] and [--azimuth] values converted to radians and stored
    as they are, neither clamped nor normalised. *)
Theorem initial_camera_from_cli (PI : Q) (safe_stof : string -> option Q)
    (load : string -> bool -> option (list Colors.Material))
    (term : Curses.Terminal) (argv : list string)
    (args : Args) (st : Loop) (trace : list event) :
  main_start PI safe_stof load term argv = Looping args st trace ->
  parse_args safe_stof argv = Parsed args /\
  clamped_to (Cli.zoom args) Config.ZOOM_MIN Config.ZOOM_MAX
             (Cam.zoom (cam st)) /\
  Cam.zoom_clamped (Cam.zoom (cam st)) /\
  Cam.altitude (cam st) = Mathematics.deg2rad PI (Cli.altitude args) /\
  Cam.azimuth (cam st) = Mathematics.deg2rad PI (Cli.azimuth args).
Proof.
  intros H. apply start_looping in H. destruct H as (Hargs & _ & ->).
  split; [exact Hargs |].
  unfold initial_camera, Cam.zoom_clamped; simpl.
  split; [apply clamp_clamped_to, zoom_bounds_ordered |].
  split; [apply clamp_bounds, zoom_bounds_ordered |].
  split; reflexivity.
Qed.

Lemma initial_camera_from_cli_witness :
  exists args st trace,
    run ["--zoom"; "9"; "--altitude"; "30"; "cube.obj"]%string
      = Looping args st trace /\
    Cam.zoom (cam st) == Config.ZOOM_MAX /\
    Cam.altitude (cam st) = Mathematics.deg2rad Mathematics.PI_f32 30.
Proof.
  destruct (run ["--zoom"; "9"; "--altitude"; "30"; "cube.obj"]%string)
    as [status trace | args st trace] eqn:E; [discriminate E |].
  exists args, st, trace. split; [reflexivity |].
  pose proof (initial_camera_from_cli _ _ _ _ _ _ _ _ E)
    as (Hargs & Hzoom & _ & Hal & _).
  vm_compute in Hargs. injection Hargs as <-.
  split; [| exact Hal].
  destruct Hzoom as [[Hlt _] | [[_ Hhi] | [[_ Hle] _]]].
  - discriminate Hlt.
  - exact Hhi.
  - exfalso. apply Hle. reflexivity.
Defined.

(** C4 as stated fails.  With [--altitude 120 --azimuth 720] the loop is
    entered with altitude 120 degrees, above PI/2, and azimuth 720
    degrees, above PI. *)
Lemma initial_camera_escapes :
  exists args st trace,
    run ["--altitude"; "120"; "--azimuth"; "720"; "cube.obj"]%string
      = Looping args st trace /\
    Mathematics.PI_f32 / 2 < Cam.altitude (cam st) /\
    ~ Cam.altitude_clamped Mathematics.PI_f32 (Cam.altitude (cam st)) /\
    Mathematics.PI_f32 < Cam.azimuth (cam st) /\
    ~ Cam.canonical Mathematics.PI_f32 (Cam.azimuth (cam st)).
Proof.
  eexists _, _, _. split; [reflexivity |].
  cbn [cam].
  assert (Hal : Mathematics.PI_f32 / 2
                < Cam.altitude (initial_camera Mathematics.PI_f32
                    (set_azimuth (set_altitude
                       (set_input_file Args0 "cube.obj") 120) 720)))
    by reflexivity.
  assert (Haz : Mathematics.PI_f32
                < Cam.azimuth (initial_camera Mathematics.PI_f32
                    (set_azimuth (set_altitude
                       (set_input_file Args0 "cube.obj") 120) 720)))
    by reflexivity.
  split; [exact Hal |].
  split; [intros [_ Hhi]; exact (Qlt_not_le _ _ Hal Hhi) |].
  split; [exact Haz |].
  intros [_ Hhi]. exact (Qlt_not_le _ _ Haz Hhi).
Qed.

(** C7, as amended.  Let the arguments [pre] be read without an exit.
    Then (1) [-z], [--zoom], [--altitude] or [--azimuth] followed by a
    value that [safe_stof] rejects makes the process write one line,
    "error: invalid ... value", on standard error, with no usage hint,
    and exit with status 1; (2) an unknown flag makes it write
    "unknown option: ..." and the usage hint on standard error and exit
    with status 1; in both cases before ncurses is initialised and
    without reaching the render loop.  (3) A word after [-al] or [-az]
    that [safe_stof] rejects is no error: the option takes no value and
    the word is read as the next argument. *)
Theorem bad_option_exits (PI : Q) (safe_stof : string -> option Q)
    (load : string -> bool -> option (list Colors.Material))
    (term : Curses.Terminal) (pre rest : list string) (a : Args) :
  parse_loop safe_stof Args0 pre = Parsed a ->
  (forall opt name v,
     In (opt, name) [("-z", "zoom"); ("--zoom", "zoom");
                     ("--altitude", "altitude");
                     ("--azimuth", "azimuth")]%string ->
     safe_stof v = None ->
     let trace :=
       [Write (Cerr ("error: invalid " ++ name ++ " value" ++ nl))] in
     main_start PI safe_stof load term (pre ++ opt :: v :: rest)
       = Exited 1 trace /\
     ~ entered_ncurses trace /\ ~ In usage_hint (written trace)) /\
  (forall flag,
     unknown_flag flag = true ->
     let trace :=
       [Write (Cerr ("unknown option: " ++ flag ++ nl)); Write usage_hint] in
     main_start PI safe_stof load term (pre ++ flag :: rest)
       = Exited 1 trace /\
     ~ entered_ncurses trace) /\
  (forall v,
     dash0 v = false -> safe_stof v = None ->
     parse_loop safe_stof a ("-al"%string :: v :: rest)
       = parse_loop safe_stof (set_animate_altitude a true) (v :: rest) /\
     parse_loop safe_stof a ("-az"%string :: v :: rest)
       = parse_loop safe_stof (set_animate_azimuth a true) (v :: rest)).
Proof.
  intros Hpre. split; [| split].
  - intros opt name v Hin Hbad trace.
    assert (Hrun : main_start PI safe_stof load term (pre ++ opt :: v :: rest)
                   = Exited 1 trace).
    { apply (start_of_exit PI safe_stof load term _ 1
               [Cerr ("error: invalid " ++ name ++ " value" ++ nl)]).
      apply (prefix_then_exit safe_stof pre _ a); [| exact Hpre |].
      - simpl in Hin.
        destruct Hin as [E | [E | [E | [E | []]]]];
          injection E as <- <-; reflexivity.
      - simpl in Hin.
        destruct Hin as [E | [E | [E | [E | []]]]];
          injection E as <- <-; cbn [parse_loop String.eqb Ascii.eqb
            Bool.eqb orb]; rewrite Hbad; reflexivity. }
    split; [exact Hrun |].
    split.
    + exact (exited_before_ncurses _ _ _ _ _ _ _ Hrun).
    + simpl. intros [E | []]. discriminate E.
  - intros flag Hflag trace.
    assert (Hrun : main_start PI safe_stof load term (pre ++ flag :: rest)
                   = Exited 1 trace).
    { apply (start_of_exit PI safe_stof load term _ 1
               [Cerr ("unknown option: " ++ flag ++ nl); usage_hint]).
      apply (prefix_then_exit safe_stof pre _ a); [| exact Hpre |].
      - unfold unknown_flag in Hflag. apply andb_true_iff in Hflag.
        exact (proj1 Hflag).
      - apply unknown_flag_exits. exact Hflag. }
    split; [exact Hrun |].
    exact (exited_before_ncurses _ _ _ _ _ _ _ Hrun).
  - intros v Hdash Hbad.
    cbn [parse_loop String.eqb Ascii.eqb Bool.eqb orb].
    rewrite Hdash, Hbad. split; reflexivity.
Qed.

Lemma bad_option_exits_witness :
  parse_loop stof_dec Args0 ["-c"; "cube.obj"]%string
    = Parsed (set_input_file (set_color_support Args0 true) "cube.obj") /\
  stof_dec "1.x" = None /\
  run ["-c"; "cube.obj"; "--zoom"; "1.x"; "-l"]%string
    = Exited 1 [Write (Cerr ("error: invalid zoom value" ++ nl))] /\
  unknown_flag "--fast" = true /\
  run ["-c"; "cube.obj"; "--fast"; "-l"]%string
    = Exited 1 [Write (Cerr ("unknown option: --fast" ++ nl));
                Write usage_hint].
Proof.
  assert (Hpre : parse_loop stof_dec Args0 ["-c"; "cube.obj"]%string
            = Parsed (set_input_file (set_color_support Args0 true)
                        "cube.obj")) by reflexivity.
  assert (Hbad : stof_dec "1.x" = None) by reflexivity.
  assert (Hflag : unknown_flag "--fast" = true) by reflexivity.
  destruct (bad_option_exits Mathematics.PI_f32 stof_dec
              (load_only "cube.obj") xterm _ ["-l"%string] _ Hpre)
    as (Hvalue & Hunknown & _).
  split; [exact Hpre |]. split; [exact Hbad |].
  split; [| split; [exact Hflag |]].
  - apply (Hvalue "--zoom" "zoom" "1.x")%string; [| exact Hbad].
    right. left. reflexivity.
  - apply (Hunknown "--fast"%string Hflag).
Defined.

(** C7 as stated fails: a malformed zoom value is reported without the
    usage hint; a malformed word after [-al] is not reported at all and
    becomes the input file; and after [--help] the process has left
    with status 0 before the malformed value is looked at. *)
Lemma bad_option_unreported :
  run ["cube.obj"; "-z"; "abc"]%string
    = Exited 1 [Write (Cerr ("error: invalid zoom value" ++ nl))] /\
  ~ In usage_hint
       (written [Write (Cerr ("error: invalid zoom value" ++ nl))]) /\
  parse_args stof_dec ["-al"; "abc"]%string
    = Parsed (set_input_file (set_animate_altitude Args0 true) "abc") /\
  run ["--help"; "-z"; "abc"; "--bogus"]%string = Exited 0 [Write Cout_help].
Proof.
  split; [reflexivity |].
  split; [| split; reflexivity].
  simpl. intros [E | []]. discriminate E.
Qed.

(** C8 as stated fails: with [--help] or [--version] and no input file
    the process exits with status 0. *)
Lemma no_input_file_exit_zero :
  run ["--help"]%string = Exited 0 [Write Cout_help] /\
  run ["-v"]%string = Exited 0 [Write Cout_version] /\
  run ["-c"; "--version"]%string = Exited 0 [Write Cout_version].
Proof. repeat split. Qed.

End StartClaims.

(** ** Colour pairs *)

Section ColorFacts.

Import Curses Colors.






(** Past that the index arrives wrapped: the material with index 32767
    is given the pair and colour number -32768. *)
Lemma pair_number_wraps (term : Terminal) (bg : Z) (m : Material) :
  init_pair_indices (material_pairs term bg 32767 [m]) = [(-32768)%Z].
Proof. simpl. destruct (can_change_color term); reflexivity. Qed.





(** C10, at the failing input.  On a colour terminal whose table holds
    one pair ([COLOR_PAIRS = 1]) and with one material, [COLOR_PAIRS - 2]
    is -1, which as a [size_t] is 2^64 - 1; the limit is then the
    number of materials, 1, and [init_pair] is called for pair 1, which
    is not below [COLOR_PAIRS]. *)
Theorem init_colors_one_pair_table :
  let term := mkTerminal true true 1 in
  let materials := [mkMaterial (mkVec3 1 (1 # 2) 0)] in
  to_size_t (COLOR_PAIRS term - 2) = (2 ^ 64 - 1)%Z /\
  color_limit term materials = 1%Z /\
  init_colors term 0 materials Dark
    = ([StartColor; InitColor 1 1000 500 0; InitPair 1 1 COLOR_BLACK;
        Bkgd 2], 2%Z) /\
  exists p,
    In p (init_pair_indices (fst (init_colors term 0 materials Dark))) /\
    (COLOR_PAIRS term <= p)%Z.
Proof.
  cbv zeta.
  split; [reflexivity |]. split; [reflexivity |]. split; [reflexivity |].
  exists 1%Z. split; [left; reflexivity | discriminate].
Qed.


End ColorFacts.

(** ** More on the camera *)

Section CameraMore.

Import Config Cam.

Lemma zoom_step_nonneg : 0 <= ZOOM_STEP.
Proof. intro H. discriminate H. Qed.

Lemma existsb_key (ch : Z) (keys : list Z) :
  existsb (Z.eqb ch) keys = true -> In ch keys.
Proof.
  intros H. apply existsb_exists in H. destruct H as (k & Hin & E).
  apply Z.eqb_eq in E. subst k. exact Hin.
Qed.

Lemma handle_control_fields (PI : Q) (ch : Z) (c : Camera) :
  (~ In ch horizontal_keys ->
   azimuth (Main.handle_control PI ch c) = azimuth c) /\
  (~ In ch vertical_keys ->
   altitude (Main.handle_control PI ch c) = altitude c) /\
  (~ In ch zoom_keys ->
   zoom (Main.handle_control PI ch c) = zoom c) /\
  (~ In ch (horizontal_keys ++ vertical_keys ++ zoom_keys) ->
   Main.handle_control PI ch c = c).
Proof.
  unfold Main.handle_control.
  repeat match goal with
  | |- context [existsb (Z.eqb ch) ?keys] =>
      let E := fresh "E" in
      destruct (existsb (Z.eqb ch) keys) eqn:E;
      [apply existsb_key in E |]
  end;
  (split; [| split; [| split]]); intros Hnot; try reflexivity;
  exfalso; apply Hnot;
  unfold horizontal_keys, vertical_keys, zoom_keys;
  repeat rewrite in_app_iff; simpl in *; tauto.
Qed.

(** X3.  [handle_control] changes at most one group of camera fields,
    and only on that group's keys: a key that is not a left or right
    key leaves the azimuth as it is, a key that is not an up or down
    key the altitude, a key that is not a zoom key the zoom; any other
    key leaves the whole camera as it is. *)
Theorem handle_control_by_key (PI : Q) (ch : Z) (c : Camera) :
  (~ In ch horizontal_keys ->
   azimuth (Main.handle_control PI ch c) = azimuth c) /\
  (~ In ch vertical_keys ->
   altitude (Main.handle_control PI ch c) = altitude c) /\
  (~ In ch zoom_keys ->
   zoom (Main.handle_control PI ch c) = zoom c) /\
  (~ In ch (horizontal_keys ++ vertical_keys ++ zoom_keys) ->
   Main.handle_control PI ch c = c).
Proof. exact (handle_control_fields PI ch c). Qed.

Lemma handle_control_by_key_witness :
  Main.handle_control Mathematics.PI_f32 (Main.key "x") Camera0 = Camera0 /\
  azimuth (Main.handle_control Mathematics.PI_f32 Curses.KEY_UP
             (mkCamera 1 0 2)) = 1.
Proof.
  split.
  - apply (handle_control_by_key Mathematics.PI_f32 (Main.key "x") Camera0).
    unfold horizontal_keys, vertical_keys, zoom_keys. simpl.
    intros H.
    repeat (destruct H as [H | H]; [discriminate H |]). exact H.
  - apply (handle_control_by_key Mathematics.PI_f32 Curses.KEY_UP
                                 (mkCamera 1 0 2)).
    unfold horizontal_keys. simpl. intros H.
    repeat (destruct H as [H | H]; [discriminate H |]). exact H.
Defined.

End CameraMore.

(** ** The render loop *)

(** The five ways through an iteration. *)
Ltac frame_cases ch :=
  unfold Frame.frame;
  destruct (ch =? Curses.KEY_RESIZE)%Z eqn:Eresize;
  [| destruct ((ch =? Main.key "q")%Z || (ch =? Main.key "Q")%Z) eqn:Equit;
     [| destruct (ch =? Frame.TAB)%Z eqn:Etab;
        [| destruct (negb (ch =? Curses.ERR)%Z) eqn:Ekey]]].

Section LoopFacts.

Import Config Curses Frame.

Variable PI : Q.
Variable args : Cli.Args.

Lemma handle_control_zoom_clamped (ch : Z) (c : Cam.Camera) :
  Cam.zoom_clamped (Cam.zoom c) ->
  Cam.zoom_clamped (Cam.zoom (Main.handle_control PI ch c)).
Proof.
  intros [Hlo Hhi]. unfold Main.handle_control, Cam.zoom_clamped.
  pose proof zoom_bounds_ordered as Hord.
  pose proof zoom_step_nonneg as Hs.
  repeat match goal with
  | |- context [existsb (Z.eqb ch) ?keys] =>
      destruct (existsb (Z.eqb ch) keys)
  end; simpl; try (split; assumption).
  - split; [apply min_lower; lra | apply min_upper].
  - split; [apply max_lower | apply max_upper; lra].
Qed.

Lemma animate_zoom (dt : Q) (st : Main.Loop) :
  Cam.zoom (Main.cam (animate PI args dt st)) = Cam.zoom (Main.cam st).
Proof.
  unfold animate. destruct (Main.rotate st); [| reflexivity].
  destruct (Cli.animate_altitude args), (Cli.animate_azimuth args);
    reflexivity.
Qed.

Lemma animate_rotate (dt : Q) (st : Main.Loop) :
  Main.rotate (animate PI args dt st) = Main.rotate st.
Proof. unfold animate. destruct (Main.rotate st) eqn:E; simpl; auto. Qed.

Lemma animate_hud (dt : Q) (st : Main.Loop) :
  Main.hud (animate PI args dt st) = Main.hud st.
Proof. unfold animate. destruct (Main.rotate st); reflexivity. Qed.

Lemma animate_still (dt : Q) (st : Main.Loop) :
  Main.rotate st = false -> animate PI args dt st = st.
Proof. unfold animate. intros ->. reflexivity. Qed.

Lemma redraw_state (fps : Q) (st : Main.Loop) :
  Main.cam (fst (redraw args fps st)) = Main.cam st /\
  Main.hud (fst (redraw args fps st)) = Main.hud st /\
  Main.rotate (fst (redraw args fps st)) = Main.rotate st /\
  Main.g_hud_pair (fst (redraw args fps st)) = Main.g_hud_pair st /\
  Main.needs_redraw (fst (redraw args fps st)) = false.
Proof.
  unfold redraw.
  destruct (Main.needs_redraw st) eqn:E; [repeat split |].
  destruct (Main.hud st) eqn:Eh; simpl; rewrite ?Eh; repeat split; exact E.
Qed.

Lemma redraw_renders (fps : Q) (st : Main.Loop) :
  renders (snd (redraw args fps st))
  = if Main.needs_redraw st then [Main.cam st] else [].
Proof.
  unfold redraw.
  destruct (Main.needs_redraw st); [| destruct (Main.hud st); reflexivity].
  destruct (Main.hud st); reflexivity.
Qed.

Lemma renders_app (o1 o2 : list drawn) :
  renders (o1 ++ o2) = renders o1 ++ renders o2.
Proof.
  induction o1 as [| d o1 IH]; [reflexivity |].
  destruct d; simpl; rewrite IH; reflexivity.
Qed.

Lemma frame_zoom_clamped (dt : Q) (ch : Z) (st : Main.Loop) :
  Cam.zoom_clamped (Cam.zoom (Main.cam st)) ->
  Cam.zoom_clamped
    (Cam.zoom (Main.cam (state_of (fst (frame PI args dt ch st))))) /\
  Forall (fun c => Cam.zoom_clamped (Cam.zoom c))
         (renders (snd (frame PI args dt ch st))).
Proof.
  intros Hz. rewrite <- (animate_zoom dt st) in Hz.
  frame_cases ch; cbn [fst snd state_of renders];
    try rewrite redraw_renders;
    repeat match goal with
    | |- context [redraw args ?f ?s] =>
        let H := fresh "H" in
        pose proof (redraw_state f s) as (H & _); rewrite H; clear H
    end;
    cbn [Main.cam Main.needs_redraw].
  all: pose proof (handle_control_zoom_clamped ch _ Hz) as Hkey.
  all: split; [assumption |].
  all: try destruct (Main.needs_redraw (animate PI args dt st)).
  all: repeat (constructor; try assumption).
Qed.

Lemma frames_zoom_clamped (inputs : list (Q * Z)) :
  forall st,
  Cam.zoom_clamped (Cam.zoom (Main.cam st)) ->
  Cam.zoom_clamped
    (Cam.zoom (Main.cam (state_of (fst (frames PI args inputs st))))) /\
  Forall (fun c => Cam.zoom_clamped (Cam.zoom c))
         (renders (snd (frames PI args inputs st))).
Proof.
  induction inputs as [| [dt ch] inputs IH]; intros st Hz.
  - simpl. split; [exact Hz | constructor].
  - cbn [frames].
    pose proof (frame_zoom_clamped dt ch st Hz) as (Hst & Hout).
    destruct (frame PI args dt ch st) as [[st' | st'] out];
      cbn [fst snd state_of] in *.
    + split; [exact Hst |].
      rewrite renders_app. apply Forall_app. split; [exact Hout | constructor].
    + destruct (IH st' Hst) as (Hfin & Hrest).
      split; [exact Hfin |].
      rewrite renders_app. apply Forall_app. split; assumption.
Qed.

End LoopFacts.

Section LoopClaims.

Import Config Curses Frame.

Lemma frame_rotate (PI : Q) (args : Cli.Args) (dt : Q) (ch : Z)
    (st : Main.Loop) :
  Main.rotate (state_of (fst (frame PI args dt ch st)))
  = if existsb (Z.eqb ch) [ERR; KEY_RESIZE; TAB; Main.key "q"; Main.key "Q"]
    then Main.rotate st else false.
Proof.
  frame_cases ch; cbn [fst snd state_of existsb];
    repeat match goal with
    | |- context [redraw args ?f ?s] =>
        let H := fresh "H" in
        pose proof (redraw_state args f s) as (_ & _ & H & _);
        rewrite H; clear H
    end;
    cbn [Main.rotate]; rewrite ?animate_rotate.
  - apply Z.eqb_eq in Eresize. subst ch. reflexivity.
  - apply orb_true_iff in Equit.
    destruct Equit as [E | E]; apply Z.eqb_eq in E; subst ch; reflexivity.
  - apply Z.eqb_eq in Etab. subst ch. reflexivity.
  - apply negb_true_iff in Ekey. apply orb_false_elim in Equit.
    destruct Equit as [Eq1 Eq2].
    rewrite Ekey, Eresize, Etab, Eq1, Eq2. reflexivity.
  - apply negb_false_iff in Ekey. apply Z.eqb_eq in Ekey. subst ch.
    reflexivity.
Qed.

(** X4.  The zoom never leaves [[ZOOM_MIN, ZOOM_MAX]] while the program
    runs: whatever the command line, the clock readings and the keys,
    the camera after any number of iterations, and the camera of every
    frame rendered on the way, has its zoom in that interval. *)
Theorem zoom_clamped_throughout (PI : Q) (safe_stof : string -> option Q)
    (load : string -> bool -> option (list Colors.Material))
    (term : Terminal) (argv : list string)
    (args : Cli.Args) (st : Main.Loop) (trace : list Main.event)
    (inputs : list (Q * Z)) :
  Main.main_start PI safe_stof load term argv = Main.Looping args st trace ->
  Cam.zoom_clamped
    (Cam.zoom (Main.cam (state_of (fst (frames PI args inputs st))))) /\
  Forall (fun c => Cam.zoom_clamped (Cam.zoom c))
         (renders (snd (frames PI args inputs st))).
Proof.
  intros H. apply start_looping in H. destruct H as (_ & _ & Hcam).
  apply frames_zoom_clamped. rewrite Hcam.
  unfold Main.initial_camera, Cam.zoom_clamped; simpl.
  apply clamp_bounds, zoom_bounds_ordered.
Qed.

Lemma zoom_clamped_throughout_witness :
  exists args st trace,
    run ["--zoom"; "4"; "-az"; "cube.obj"]%string
      = Main.Looping args st trace /\
    Cam.zoom_clamped
      (Cam.zoom (Main.cam (state_of (fst
         (frames Mathematics.PI_f32 args
            (repeat (FRAME_DURATION, Main.key "+") 30) st))))).
Proof.
  destruct (run ["--zoom"; "4"; "-az"; "cube.obj"]%string)
    as [status trace | args st trace] eqn:E; [discriminate E |].
  exists args, st, trace. split; [reflexivity |].
  exact (proj1 (zoom_clamped_throughout _ _ _ _ _ _ _ _
                  (repeat (FRAME_DURATION, Main.key "+") 30) E)).
Defined.

(** X5.  The loop never switches the animation on, and any key other
    than a resize, Tab or q/Q switches it off, bound to a camera action
    or not: after an iteration [rotate] is what it was when [getch]
    gave [ERR], [KEY_RESIZE], Tab, q or Q, and false otherwise; once
    false it is false after any number of iterations. *)
Theorem animation_only_stops (PI : Q) (args : Cli.Args) (st : Main.Loop) :
  (forall dt ch,
     In ch [ERR; KEY_RESIZE; TAB; Main.key "q"; Main.key "Q"] ->
     Main.rotate (state_of (fst (frame PI args dt ch st)))
     = Main.rotate st) /\
  (forall dt ch,
     ~ In ch [ERR; KEY_RESIZE; TAB; Main.key "q"; Main.key "Q"] ->
     Main.rotate (state_of (fst (frame PI args dt ch st))) = false) /\
  (forall inputs,
     Main.rotate st = false ->
     Main.rotate (state_of (fst (frames PI args inputs st))) = false).
Proof.
  split; [| split].
  - intros dt ch Hin. rewrite frame_rotate.
    destruct (existsb (Z.eqb ch) _) eqn:E; [reflexivity |].
    exfalso. apply not_true_iff_false in E. apply E.
    apply existsb_exists. exists ch. split; [exact Hin | apply Z.eqb_refl].
  - intros dt ch Hnot. rewrite frame_rotate.
    destruct (existsb (Z.eqb ch) _) eqn:E; [| reflexivity].
    exfalso. apply Hnot. apply existsb_key. exact E.
  - intros inputs. revert st.
    induction inputs as [| [dt ch] inputs IH]; intros st Hst; [exact Hst |].
    cbn [frames].
    pose proof (frame_rotate PI args dt ch st) as Hf.
    rewrite Hst in Hf.
    assert (Hf' : Main.rotate (state_of (fst (frame PI args dt ch st)))
                  = false)
      by (rewrite Hf; destruct (existsb (Z.eqb ch) _); reflexivity).
    destruct (frame PI args dt ch st) as [[st' | st'] out];
      cbn [fst state_of] in *; [exact Hf' | apply IH; exact Hf'].
Qed.

Lemma animation_only_stops_witness :
  let st := Main.mkLoop Cam.Camera0 false true true 0 in
  Main.rotate (state_of (fst (frame Mathematics.PI_f32 Cli.Args0
                                FRAME_DURATION (Main.key "x") st))) = false /\
  Main.rotate (state_of (fst (frame Mathematics.PI_f32 Cli.Args0
                                FRAME_DURATION TAB st))) = true /\
  Main.rotate (state_of (fst (frames Mathematics.PI_f32 Cli.Args0
                                [(1, Main.key "x"); (1, TAB); (1, ERR)] st)))
  = false.
Proof.
  intros st.
  destruct (animation_only_stops Mathematics.PI_f32 Cli.Args0 st)
    as (Hkeep & Hstop & _).
  split; [| split].
  - apply Hstop. simpl. intros H.
    repeat (destruct H as [H | H]; [discriminate H |]). exact H.
  - apply Hkeep. simpl. auto.
  - destruct (animation_only_stops Mathematics.PI_f32 Cli.Args0
                (state_of (fst (frame Mathematics.PI_f32 Cli.Args0 1
                                  (Main.key "x") st))))
      as (_ & _ & Hstay).
    apply (Hstay [(1, TAB); (1, ERR)]). reflexivity.
Defined.

Lemma frame_break (PI : Q) (args : Cli.Args) (dt : Q) (ch : Z)
    (st : Main.Loop) :
  (In ch quit_keys ->
   frame PI args dt ch st = (Break (animate PI args dt st), [])) /\
  (~ In ch quit_keys ->
   exists st', fst (frame PI args dt ch st) = Next st').
Proof.
  split.
  - intros [<- | [<- | []]]; reflexivity.
  - intros Hnot. frame_cases ch; cbn [fst]; eauto.
    exfalso. apply Hnot. apply orb_true_iff in Equit.
    destruct Equit as [E | E]; apply Z.eqb_eq in E; subst ch;
      simpl; auto.
Qed.

(** X6.  The loop is left on q or Q and on nothing else: a run over
    clock readings and keys ends at the [break] exactly when one of the
    keys read is q or Q; the iteration that reads it draws nothing, and
    [endwin] is the last thing done. *)
Theorem loop_left_on_quit_key (PI : Q) (args : Cli.Args)
    (inputs : list (Q * Z)) (st : Main.Loop) :
  ((exists st', fst (frames PI args inputs st) = Break st') <->
   Exists (fun i => In (snd i) quit_keys) inputs) /\
  (forall dt ch,
     In ch quit_keys ->
     frame PI args dt ch st = (Break (animate PI args dt st), [])) /\
  (forall st',
     fst (frames PI args inputs st) = Break st' ->
     exists out, snd (frames PI args inputs st) = out ++ [Endwin]).
Proof.
  split; [| split].
  - revert st. induction inputs as [| [dt ch] inputs IH]; intros st.
    + split; [intros [st' H]; discriminate H | intros H; inversion H].
    + cbn [frames].
      destruct (frame_break PI args dt ch st) as (Hq & Hn).
      split.
      * intros [st' H].
        destruct (in_dec Z.eq_dec ch quit_keys) as [Hin | Hnot];
          [left; exact Hin |].
        right. destruct (Hn Hnot) as [st1 E].
        destruct (frame PI args dt ch st) as [s out]; cbn [fst] in E.
        subst s. cbn [fst] in H. apply (IH st1). eauto.
      * intros H. inversion H as [i l Hin | i l Hex]; subst.
        -- rewrite (Hq Hin). cbn [fst]. eauto.
        -- destruct (frame PI args dt ch st) as [[st1 | st1] out];
             cbn [fst]; [eauto |]. apply (IH st1). exact Hex.
  - intros dt ch Hin. apply (frame_break PI args dt ch st). exact Hin.
  - revert st. induction inputs as [| [dt ch] inputs IH]; intros st st' H.
    + discriminate H.
    + cbn [frames] in *.
      destruct (frame PI args dt ch st) as [[st1 | st1] out];
        cbn [fst snd] in *; [eauto |].
      destruct (IH st1 st' H) as [out' E]. rewrite E.
      exists (out ++ out'). apply app_assoc.
Qed.

Lemma loop_left_on_quit_key_witness :
  exists st',
    fst (frames Mathematics.PI_f32 Cli.Args0
           [(1, ERR); (1, Main.key "Q"); (1, Main.key "+")]
           (Main.mkLoop Cam.Camera0 false false true 0)) = Break st'.
Proof.
  apply (proj1 (loop_left_on_quit_key Mathematics.PI_f32 Cli.Args0
                  [(1, ERR); (1, Main.key "Q"); (1, Main.key "+")]
                  (Main.mkLoop Cam.Camera0 false false true 0))).
  right. left. simpl. auto.
Defined.

Lemma frame_next_shape (PI : Q) (args : Cli.Args) (dt : Q)
    (ch : Z) (st : Main.Loop) :
  match fst (frame PI args dt ch st) with
  | Break _ => True
  | Next st' =>
      Main.needs_redraw st' = false /\
      (renders (snd (frame PI args dt ch st)) = [Main.cam st'] \/
       (renders (snd (frame PI args dt ch st)) = [] /\ st' = st))
  end.
Proof.
  frame_cases ch; cbn [fst snd renders]; try exact I;
    rewrite ?redraw_renders;
    repeat match goal with
    | |- context [Main.needs_redraw (fst (redraw args ?f ?s))] =>
        let H := fresh "H" in
        pose proof (redraw_state args f s) as (_ & _ & _ & _ & H);
        rewrite H; clear H
    | |- context [Main.cam (fst (redraw args ?f ?s))] =>
        let H := fresh "H" in
        pose proof (redraw_state args f s) as (H & _); rewrite H; clear H
    end;
    cbn [Main.needs_redraw Main.cam]; (split; [reflexivity |]); auto.
  destruct (Main.rotate st) eqn:Erot.
  - left. unfold animate. rewrite Erot. reflexivity.
  - rewrite (animate_still PI args dt st Erot).
    destruct (Main.needs_redraw st) eqn:Eclean; [left; reflexivity |].
    right. split; [reflexivity |].
    unfold redraw. rewrite Eclean. destruct (Main.hud st); reflexivity.
Qed.

(** X7.  The screen never lags behind the state: an iteration that
    goes on either renders the model, once and with the camera it
    leaves behind, or leaves the whole loop state exactly as it found
    it; either way nothing is left to redraw. *)
Theorem frame_renders_what_changed (PI : Q) (args : Cli.Args) (dt : Q)
    (ch : Z) (st st' : Main.Loop) (out : list drawn) :
  frame PI args dt ch st = (Next st', out) ->
  Main.needs_redraw st' = false /\
  (renders out = [Main.cam st'] \/ (renders out = [] /\ st' = st)).
Proof.
  intros E. pose proof (frame_next_shape PI args dt ch st) as H.
  rewrite E in H. exact H.
Qed.

Lemma frame_renders_what_changed_witness :
  let st := Main.mkLoop Cam.Camera0 true false false 0 in
  exists st' out,
    frame Mathematics.PI_f32 Cli.Args0 1 (Main.key "i") st = (Next st', out) /\
    renders out = [Main.cam st'] /\ Main.needs_redraw st' = false.
Proof.
  intros st.
  destruct (frame Mathematics.PI_f32 Cli.Args0 1 (Main.key "i") st)
    as [[st' | st'] out] eqn:E; [discriminate E |].
  exists st', out. split; [reflexivity |].
  destruct (frame_renders_what_changed _ _ _ _ _ _ _ E) as (Hclean & Hdraw).
  split; [| exact Hclean].
  destruct Hdraw as [H | [_ H]]; [exact H |].
  exfalso. subst st'. vm_compute in E. discriminate E.
Defined.

(** X8.  An idle loop is quiet: with the animation off and nothing
    left to redraw, any number of iterations in which [getch] gives
    [ERR] leave the loop state as it is and never render the model;
    with the HUD off they draw nothing at all. *)
Theorem idle_frames_draw_nothing (PI : Q) (args : Cli.Args)
    (inputs : list (Q * Z)) (st : Main.Loop) :
  Forall (fun i => snd i = ERR) inputs ->
  Main.rotate st = false -> Main.needs_redraw st = false ->
  fst (frames PI args inputs st) = Next st /\
  renders (snd (frames PI args inputs st)) = [] /\
  (Main.hud st = false -> snd (frames PI args inputs st) = []).
Proof.
  intros Hidle Hrot Hclean.
  induction Hidle as [| [dt ch] inputs Hch _ IH];
    [repeat split |].
  cbn [snd] in Hch. subst ch. cbn [frames].
  assert (E : frame PI args dt ERR st
              = (Next st, if Main.hud st
                          then [RenderHud (Main.cam st) (fps_of dt)
                                          (Main.g_hud_pair st); Refresh]
                          else [])).
  { unfold frame. rewrite (animate_still PI args dt st Hrot).
    cbn [Z.eqb ERR KEY_RESIZE orb negb]. unfold redraw. rewrite Hclean.
    destruct (Main.hud st); reflexivity. }
  rewrite E. cbn [fst snd].
  destruct IH as (Hst & Hren & Hnone).
  split; [exact Hst |].
  split.
  - rewrite renders_app, Hren. destruct (Main.hud st); reflexivity.
  - intros Hhud. rewrite (Hnone Hhud), Hhud. reflexivity.
Qed.

Lemma idle_frames_draw_nothing_witness :
  let st := Main.mkLoop Cam.Camera0 false false false 0 in
  frames Mathematics.PI_f32 Cli.Args0 (repeat (FRAME_DURATION, ERR) 5) st
  = (Next st, []).
Proof.
  intros st.
  destruct (idle_frames_draw_nothing Mathematics.PI_f32 Cli.Args0
              (repeat (FRAME_DURATION, ERR) 5) st) as (Hst & _ & Hout).
  - repeat constructor.
  - reflexivity.
  - reflexivity.
  - rewrite (surjective_pairing (frames _ _ _ _)), Hst, (Hout eq_refl).
    reflexivity.
Defined.

(** X9.  The frame rate handed to the HUD: never negative, 0 when the
    clock did not advance ([dt <= 0], no division by zero), the inverse
    of [dt] otherwise, and at most 60 whenever [dt] is at least
    [FRAME_DURATION]. *)
Theorem fps_of_bounds (dt : Q) :
  0 <= fps_of dt /\
  (dt <= 0 -> fps_of dt = 0) /\
  (0 < dt -> fps_of dt * dt == 1) /\
  (FRAME_DURATION <= dt -> fps_of dt <= 60).
Proof.
  unfold fps_of.
  destruct (Std.Qltb 0 dt) eqn:E;
    [apply Qltb_lt in E | apply Qltb_ge in E].
  - assert (Hpos : 0 < 1 / dt) by (apply Qlt_shift_div_l; lra).
    split; [lra |]. split; [lra |].
    split; [intros _; field; lra |].
    intros Hdt. unfold FRAME_DURATION in Hdt.
    assert (H60 : (1 / 60) * 60 == 1) by reflexivity.
    assert (Hm : 1 <= dt * 60)
      by (rewrite <- H60; apply Qmult_le_compat_r; [exact Hdt | lra]).
    apply Qle_shift_div_r; [exact E | lra].
  - split; [lra |]. split; [reflexivity |].
    split; [lra |].
    intros Hdt. unfold FRAME_DURATION in Hdt.
    lra.
Qed.

Lemma fps_of_bounds_witness :
  fps_of FRAME_DURATION <= 60 /\ fps_of (1 # 30) * (1 # 30) == 1 /\
  fps_of 0 = 0.
Proof.
  split; [| split].
  - apply (fps_of_bounds FRAME_DURATION). intro H. discriminate H.
  - apply (fps_of_bounds (1 # 30)). reflexivity.
  - apply (fps_of_bounds 0). intro H. discriminate H.
Defined.

End LoopClaims.

(** ** More on the command line *)

Section CliMore.

Import Cli Main.




(** X10.  A value option given as the last argument is an error of its
    own: when the arguments before it are read without an exit, [-z],
    [--zoom], [--altitude] or [--azimuth] with nothing after it makes
    the process write "error: ... needs value" on standard error and
    exit with status 1, before the loader or ncurses is touched. *)
Theorem option_without_value_exits (PI : Q)
    (safe_stof : string -> option Q)
    (load : string -> bool -> option (list Colors.Material))
    (term : Curses.Terminal) (pre : list string) (a : Args)
    (opt name : string) :
  parse_loop safe_stof Args0 pre = Parsed a ->
  In (opt, name) [("-z", "zoom"); ("--zoom", "zoom");
                  ("--altitude", "altitude");
                  ("--azimuth", "azimuth")]%string ->
  main_start PI safe_stof load term (pre ++ [opt])
  = Exited 1 [Write (Cerr ("error: " ++ name ++ " needs value" ++ nl))].
Proof.
  intros Hpre Hin.
  apply (start_of_exit PI safe_stof load term _ 1
           [Cerr ("error: " ++ name ++ " needs value" ++ nl)]).
  apply (prefix_then_exit safe_stof pre _ a); [| exact Hpre |];
    simpl in Hin; destruct Hin as [E | [E | [E | [E | []]]]];
    injection E as <- <-; reflexivity.
Qed.

Lemma option_without_value_exits_witness :
  run ["cube.obj"; "-c"; "--altitude"]%string
  = Exited 1 [Write (Cerr ("error: altitude needs value" ++ nl))].
Proof.
  apply (option_without_value_exits Mathematics.PI_f32 stof_dec
           (load_only "cube.obj") xterm ["cube.obj"; "-c"]%string
           (set_color_support (set_input_file Args0 "cube.obj") true)
           "--altitude" "altitude").
  - reflexivity.
  - simpl. auto.
Defined.



(** X12.  Help and version win over everything after them: when the
    arguments before it are read without an exit, [-h] or [--help]
    makes the process print the help and exit with status 0, and [-v]
    or [--version] the version, whatever follows and with or without an
    input file. *)
Theorem help_and_version_win (PI : Q) (safe_stof : string -> option Q)
    (load : string -> bool -> option (list Colors.Material))
    (term : Curses.Terminal) (pre rest : list string) (a : Args) :
  parse_loop safe_stof Args0 pre = Parsed a ->
  (forall h, In h ["-h"; "--help"]%string ->
     main_start PI safe_stof load term (pre ++ h :: rest)
     = Exited 0 [Write Cout_help]) /\
  (forall v, In v ["-v"; "--version"]%string ->
     main_start PI safe_stof load term (pre ++ v :: rest)
     = Exited 0 [Write Cout_version]).
Proof.
  intros Hpre. split; intros w Hin.
  - apply (start_of_exit PI safe_stof load term _ 0 [Cout_help]).
    apply (prefix_then_exit safe_stof pre _ a); [| exact Hpre |];
      simpl in Hin; destruct Hin as [<- | [<- | []]]; reflexivity.
  - apply (start_of_exit PI safe_stof load term _ 0 [Cout_version]).
    apply (prefix_then_exit safe_stof pre _ a); [| exact Hpre |];
      simpl in Hin; destruct Hin as [<- | [<- | []]]; reflexivity.
Qed.

Lemma help_and_version_win_witness :
  run ["-l"; "--help"; "--zoom"; "abc"; "--bogus"]%string
    = Exited 0 [Write Cout_help] /\
  run ["cube.obj"; "-v"; "teapot.obj"]%string
    = Exited 0 [Write Cout_version].
Proof.
  split.
  - apply (proj1 (help_and_version_win Mathematics.PI_f32 stof_dec
                    (load_only "cube.obj") xterm ["-l"%string]
                    ["--zoom"; "abc"; "--bogus"]%string
                    (set_static_light Args0 true) eq_refl)).
    simpl. auto.
  - apply (proj2 (help_and_version_win Mathematics.PI_f32 stof_dec
                    (load_only "cube.obj") xterm ["cube.obj"%string]
                    ["teapot.obj"%string]
                    (set_input_file Args0 "cube.obj") eq_refl)).
    simpl. auto.
Defined.

(** X13.  An animation speed cannot begin with a dash: after [-al] or
    [-az] a word that begins with a dash is never taken as the speed
    but read as the next option, so one that is no option (a negative
    number, say) ends the process with "unknown option" and status 1;
    [-z], [--zoom], [--altitude] and [--azimuth] take whatever word
    follows, dash or not, when [safe_stof] accepts it. *)
Theorem speed_with_dash_is_an_option (safe_stof : string -> option Q)
    (a : Args) (v : string) (rest : list string) :
  (dash0 v = true ->
   parse_loop safe_stof a ("-al"%string :: v :: rest)
   = parse_loop safe_stof (set_animate_altitude a true) (v :: rest) /\
   parse_loop safe_stof a ("-az"%string :: v :: rest)
   = parse_loop safe_stof (set_animate_azimuth a true) (v :: rest)) /\
  (unknown_flag v = true ->
   parse_loop safe_stof a ("-al"%string :: v :: rest)
   = Exit 1 [Cerr ("unknown option: " ++ v ++ nl); usage_hint] /\
   parse_loop safe_stof a ("-az"%string :: v :: rest)
   = Exit 1 [Cerr ("unknown option: " ++ v ++ nl); usage_hint]) /\
  (forall q, safe_stof v = Some q ->
   parse_loop safe_stof a ("-z"%string :: v :: rest)
   = parse_loop safe_stof (set_zoom a q) rest /\
   parse_loop safe_stof a ("--zoom"%string :: v :: rest)
   = parse_loop safe_stof (set_zoom a q) rest /\
   parse_loop safe_stof a ("--altitude"%string :: v :: rest)
   = parse_loop safe_stof (set_altitude a q) rest /\
   parse_loop safe_stof a ("--azimuth"%string :: v :: rest)
   = parse_loop safe_stof (set_azimuth a q) rest).
Proof.
  assert (Hskip : dash0 v = true ->
    parse_loop safe_stof a ("-al"%string :: v :: rest)
    = parse_loop safe_stof (set_animate_altitude a true) (v :: rest) /\
    parse_loop safe_stof a ("-az"%string :: v :: rest)
    = parse_loop safe_stof (set_animate_azimuth a true) (v :: rest)).
  { intros Hdash.
    cbn [parse_loop String.eqb Ascii.eqb Bool.eqb orb].
    rewrite Hdash. split; reflexivity. }
  split; [exact Hskip |]. split.
  - intros Hflag.
    assert (Hdash : dash0 v = true)
      by (unfold unknown_flag in Hflag; apply andb_true_iff in Hflag;
          exact (proj1 Hflag)).
    destruct (Hskip Hdash) as (-> & ->).
    split; apply unknown_flag_exits; exact Hflag.
  - intros q Hq.
    cbn [parse_loop String.eqb Ascii.eqb Bool.eqb orb].
    rewrite Hq. repeat split.
Qed.

Lemma speed_with_dash_is_an_option_witness :
  parse_args stof_dec ["cube.obj"; "-al"; "-5"]%string
    = Exit 1 [Cerr ("unknown option: -5" ++ nl); usage_hint] /\
  parse_args stof_dec ["cube.obj"; "-z"; "-5"]%string
    = Parsed (set_zoom (set_input_file Args0 "cube.obj") (- (5))).
Proof.
  pose proof (speed_with_dash_is_an_option stof_dec
                (set_input_file Args0 "cube.obj") "-5" [])
    as (_ & Hflag & Hvalue).
  split.
  - unfold parse_args.
    change (parse_loop stof_dec Args0 ["cube.obj"; "-al"; "-5"]%string)
      with (parse_loop stof_dec (set_input_file Args0 "cube.obj")
              ["-al"; "-5"]%string).
    rewrite (proj1 (Hflag eq_refl)). reflexivity.
  - unfold parse_args.
    change (parse_loop stof_dec Args0 ["cube.obj"; "-z"; "-5"]%string)
      with (parse_loop stof_dec (set_input_file Args0 "cube.obj")
              ["-z"; "-5"]%string).
    rewrite (proj1 (Hvalue (- (5)) eq_refl)). reflexivity.
Defined.

(** X14.  [parse_args] leaves in two ways only: with status 0 after
    exactly the help or the version text on standard output, or with
    status 1 after at least one line, and nothing but lines, on
    standard error; it never exits with another status, silently, or
    with both streams written. *)
Theorem parse_args_exits_reported (safe_stof : string -> option Q)
    (argv : list string) (status : Z) (out : list output) :
  parse_args safe_stof argv = Exit status out ->
  (status = 0%Z /\ (out = [Cout_help] \/ out = [Cout_version])) \/
  (status = 1%Z /\ out <> [] /\
   forall o, In o out -> exists text, o = Cerr text).
Proof.
  intros H. apply parse_args_exit in H.
  destruct H as [H0 | (H1 & Hne & Hall)]; [left; exact H0 | right].
  split; [exact H1 |]. split; [exact Hne |].
  intros o Hin. rewrite Forall_forall in Hall. specialize (Hall o Hin).
  destruct o; try contradiction. eauto.
Qed.

Lemma parse_args_exits_reported_witness :
  exists text,
    parse_args stof_dec ["-c"; "light"; "--azimuth"; "east"]%string
    = Exit 1 [Cerr text].
Proof.
  destruct (parse_args stof_dec ["-c"; "light"; "--azimuth"; "east"]%string)
    as [status out | a] eqn:E; [| discriminate E].
  destruct (parse_args_exits_reported _ _ _ _ E)
    as [(Hs & _) | (Hs & _ & Hall)].
  - exfalso. subst status. vm_compute in E. discriminate E.
  - vm_compute in E. injection E as <- <-. eexists. reflexivity.
Defined.

(** X15.  The word after [-c] or [--color] is a theme only when it is
    "dark", "light" or "transparent": such a word sets the theme and is
    used up; any other word that does not begin with a dash is left to
    be read as the next argument (the input file), with colours on and
    the theme as it was. *)
Theorem color_takes_theme_words_only (safe_stof : string -> option Q)
    (a : Args) (c w : string) (rest : list string) :
  In c ["-c"; "--color"]%string ->
  (forall t,
     In (w, t) [("dark", Colors.Dark); ("light", Colors.Light);
                ("transparent", Colors.Transparent)]%string ->
     parse_loop safe_stof a (c :: w :: rest)
     = parse_loop safe_stof (set_theme (set_color_support a true) t) rest) /\
  (dash0 w = false -> ~ In w theme_words ->
   parse_loop safe_stof a (c :: w :: rest)
   = parse_loop safe_stof (set_color_support a true) (w :: rest)).
Proof.
  intros Hc. split.
  - intros t Hin. simpl in Hin, Hc.
    destruct Hc as [<- | [<- | []]];
      destruct Hin as [E | [E | [E | []]]];
      injection E as <- <-; reflexivity.
  - intros Hw Hnot.
    assert (Hd : String.eqb w "dark" = false).
    { apply String.eqb_neq. intros ->. apply Hnot. simpl. auto. }
    assert (Hl : String.eqb w "light" = false).
    { apply String.eqb_neq. intros ->. apply Hnot. simpl. auto. }
    assert (Ht : String.eqb w "transparent" = false).
    { apply String.eqb_neq. intros ->. apply Hnot. simpl. auto. }
    simpl in Hc.
    destruct Hc as [<- | [<- | []]];
      cbn [parse_loop String.eqb Ascii.eqb Bool.eqb orb];
      rewrite Hw, Hd, Hl, Ht; reflexivity.
Qed.

Lemma color_takes_theme_words_only_witness :
  parse_args stof_dec ["--color"; "cube.obj"]%string
    = Parsed (set_input_file (set_color_support Args0 true) "cube.obj") /\
  parse_args stof_dec ["-c"; "light"]%string
    = Exit 1 [Cerr ("error: no input file" ++ nl); usage_hint].
Proof.
  destruct (color_takes_theme_words_only stof_dec Args0 "--color"
              "cube.obj" []) as (_ & Hfile); [simpl; auto |].
  destruct (color_takes_theme_words_only stof_dec Args0 "-c" "light" [])
    as (Htheme & _); [simpl; auto |].
  split.
  - unfold parse_args. rewrite Hfile; [reflexivity | reflexivity |].
    unfold theme_words. simpl. intros H.
    repeat (destruct H as [H | H]; [discriminate H |]). exact H.
  - unfold parse_args. rewrite (Htheme Colors.Light); [reflexivity |].
    simpl. auto.
Defined.

End CliMore.

(** ** More on the colour pairs *)

Section ColorMore.

Import Curses Colors.

Lemma init_color_components_app (cs1 cs2 : list call) :
  init_color_components (cs1 ++ cs2)
  = init_color_components cs1 ++ init_color_components cs2.
Proof.
  induction cs1 as [| c cs1 IH]; [reflexivity |].
  destruct c; simpl; rewrite IH; reflexivity.
Qed.

Lemma init_pair_backgrounds_app (cs1 cs2 : list call) :
  init_pair_backgrounds (cs1 ++ cs2)
  = init_pair_backgrounds cs1 ++ init_pair_backgrounds cs2.
Proof.
  induction cs1 as [| c cs1 IH]; [reflexivity |].
  destruct c; simpl; rewrite IH; reflexivity.
Qed.

Lemma to_short_within (q : Q) (hi : Z) :
  (0 <= hi)%Z -> 0 <= q <= inject_Z hi -> (0 <= to_short q <= hi)%Z.
Proof.
  intros Hhi [Hlo Hup]. unfold to_short.
  destruct q as [n d]. unfold Qle in *. simpl in *.
  assert (Hn : (0 <= n)%Z) by lia.
  rewrite Z.quot_div_nonneg by lia.
  split.
  - apply Z.div_pos; lia.
  - apply Z.div_le_upper_bound; lia.
Qed.

Lemma component_within (v : Q) :
  (0 <= to_short (Std.clamp v 0 1 * 1000) <= 1000)%Z.
Proof.
  apply to_short_within; [lia |].
  assert (H : 0 <= Std.clamp v 0 1 <= 1)
    by (apply clamp_bounds; intro E; discriminate E).
  change (inject_Z 1000) with 1000. lra.
Qed.

Lemma material_pairs_components (term : Terminal) (bg : Z)
    (todo : list Material) :
  forall i,
  Forall (fun v => (0 <= v <= 1000)%Z)
         (init_color_components (material_pairs term bg i todo)).
Proof.
  induction todo as [| m todo IH]; intros i; [constructor |].
  cbn [material_pairs]. rewrite init_color_components_app.
  apply Forall_app. split.
  - destruct (can_change_color term); [| constructor].
    cbn [init_color_components].
    repeat (constructor; [apply component_within |]). constructor.
  - cbn [init_color_components]. apply IH.
Qed.

Lemma material_pairs_backgrounds (term : Terminal) (bg : Z)
    (todo : list Material) :
  forall i,
  Forall (fun b => b = bg)
         (init_pair_backgrounds (material_pairs term bg i todo)).
Proof.
  induction todo as [| m todo IH]; intros i; [constructor |].
  cbn [material_pairs]. rewrite init_pair_backgrounds_app.
  apply Forall_app. split.
  - destruct (can_change_color term); constructor.
  - cbn [init_pair_backgrounds]. constructor; [reflexivity | apply IH].
Qed.

Lemma material_pairs_no_default (term : Terminal) (bg : Z)
    (todo : list Material) :
  forall i, ~ In UseDefaultColors (material_pairs term bg i todo).
Proof.
  induction todo as [| m todo IH]; intros i; [intros [] |].
  cbn [material_pairs]. rewrite in_app_iff. intros [H | [H | H]].
  - destruct (can_change_color term); [| destruct H].
    destruct H as [H | []]. discriminate H.
  - discriminate H.
  - exact (IH _ H).
Qed.

(** X17.  Whatever the diffuse components of the materials are (below
    0, above 1), every red, green and blue value [init_colors] hands to
    [init_color] lies between 0 and 1000. *)
Theorem init_color_components_in_range (term : Terminal) (g : Z)
    (materials : list Material) (theme : Theme) :
  Forall (fun v => (0 <= v <= 1000)%Z)
         (init_color_components (fst (init_colors term g materials theme))).
Proof.
  unfold init_colors.
  destruct (negb (has_colors term) || negb (can_change_color term));
    [constructor |].
  cbn [fst]. rewrite !init_color_components_app.
  repeat (apply Forall_app; split).
  - constructor.
  - destruct (theme_bg theme =? BG_DEFAULT)%Z; constructor.
  - apply material_pairs_components.
  - destruct (_ <? _)%Z; constructor.
  - constructor.
Qed.

(** X18.  Colour pairs follow the theme: every pair [init_colors]
    registers, material or HUD, has the theme's background (black for
    dark, white for light, the terminal default -1 for transparent),
    and [use_default_colors] is called exactly for the transparent
    theme when the terminal has colours. *)
Theorem pairs_follow_theme (term : Terminal) (g : Z)
    (materials : list Material) (theme : Theme) :
  Forall (fun b => b = theme_bg theme)
         (init_pair_backgrounds (fst (init_colors term g materials theme))) /\
  (In UseDefaultColors (fst (init_colors term g materials theme)) ->
   theme = Transparent) /\
  (has_colors term = true -> can_change_color term = true ->
   theme = Transparent ->
   In UseDefaultColors (fst (init_colors term g materials theme))).
Proof.
  unfold init_colors.
  destruct (has_colors term), (can_change_color term);
    cbn [negb orb fst];
    try (split; [constructor | split; [intros [] | discriminate]]).
  split; [| split].
  - rewrite !init_pair_backgrounds_app.
    repeat (apply Forall_app; split).
    + constructor.
    + destruct (theme_bg theme =? BG_DEFAULT)%Z; constructor.
    + apply material_pairs_backgrounds.
    + destruct (_ <? _)%Z; repeat constructor.
    + constructor.
  - rewrite !in_app_iff. intros [H | [H | [H | [H | H]]]].
    + destruct H as [H | []]. discriminate H.
    + destruct theme; [destruct H | destruct H | reflexivity].
    + exfalso. exact (material_pairs_no_default _ _ _ _ H).
    + destruct (_ <? _)%Z; [| destruct H].
      destruct H as [H | []]. discriminate H.
    + destruct H as [H | []]. discriminate H.
  - intros _ _ ->. rewrite !in_app_iff. right. left. left. reflexivity.
Qed.

Lemma pairs_follow_theme_witness :
  In UseDefaultColors
     (fst (init_colors xterm 0 [mkMaterial (mkVec3 1 0 0)] Transparent)).
Proof.
  apply (pairs_follow_theme xterm 0 [mkMaterial (mkVec3 1 0 0)] Transparent);
    reflexivity.
Defined.

End ColorMore.

(** ** Angles in the render loop *)

Section LoopAngles.

Import Curses Frame.

Variable PI : Q.
Variable args : Cli.Args.

Lemma frame_azimuth (dt : Q) (ch : Z) (st : Main.Loop) :
  Cli.animate_azimuth args = false -> ~ In ch horizontal_keys ->
  Cam.azimuth (Main.cam (state_of (fst (frame PI args dt ch st))))
  = Cam.azimuth (Main.cam st).
Proof.
  intros Hoff Hkey.
  assert (Ha : Cam.azimuth (Main.cam (animate PI args dt st))
               = Cam.azimuth (Main.cam st)).
  { unfold animate. rewrite Hoff.
    destruct (Main.rotate st); [| reflexivity].
    destruct (Cli.animate_altitude args); reflexivity. }
  frame_cases ch; cbn [fst state_of];
    repeat match goal with
    | |- context [Main.cam (fst (redraw args ?f ?s))] =>
        let H := fresh "H" in
        pose proof (redraw_state args f s) as (H & _); rewrite H; clear H
    end;
    cbn [Main.cam]; try exact Ha.
  rewrite (proj1 (handle_control_fields PI ch _) Hkey). exact Ha.
Qed.

Lemma frame_altitude (dt : Q) (ch : Z) (st : Main.Loop) :
  Cli.animate_altitude args = false -> ~ In ch vertical_keys ->
  Cam.altitude (Main.cam (state_of (fst (frame PI args dt ch st))))
  = Cam.altitude (Main.cam st).
Proof.
  intros Hoff Hkey.
  assert (Ha : Cam.altitude (Main.cam (animate PI args dt st))
               = Cam.altitude (Main.cam st)).
  { unfold animate. rewrite Hoff.
    destruct (Main.rotate st); [| reflexivity].
    destruct (Cli.animate_azimuth args); reflexivity. }
  frame_cases ch; cbn [fst state_of];
    repeat match goal with
    | |- context [Main.cam (fst (redraw args ?f ?s))] =>
        let H := fresh "H" in
        pose proof (redraw_state args f s) as (H & _); rewrite H; clear H
    end;
    cbn [Main.cam]; try exact Ha.
  rewrite (proj1 (proj2 (handle_control_fields PI ch _)) Hkey). exact Ha.
Qed.

(** X20.  An angle moves only by its own keys or its own animation:
    over any run in which no left or right key is read and [-az] was
    not given, the azimuth stays exactly the value it had (also a value
    outside the canonical range, as [--azimuth] may set); likewise the
    altitude with the up and down keys and [-al]. *)
Theorem angles_move_by_own_keys (inputs : list (Q * Z)) (st : Main.Loop) :
  (Cli.animate_azimuth args = false ->
   Forall (fun i => ~ In (snd i) horizontal_keys) inputs ->
   Cam.azimuth (Main.cam (state_of (fst (frames PI args inputs st))))
   = Cam.azimuth (Main.cam st)) /\
  (Cli.animate_altitude args = false ->
   Forall (fun i => ~ In (snd i) vertical_keys) inputs ->
   Cam.altitude (Main.cam (state_of (fst (frames PI args inputs st))))
   = Cam.altitude (Main.cam st)).
Proof.
  split; intros Hoff Hkeys; revert st;
    induction Hkeys as [| [dt ch] inputs Hch _ IH]; intros st;
    try reflexivity; cbn [frames]; cbn [snd] in Hch.
  - pose proof (frame_azimuth dt ch st Hoff Hch) as Hf.
    destruct (frame PI args dt ch st) as [[st' | st'] out];
      cbn [fst state_of] in *; [exact Hf |].
    rewrite IH. exact Hf.
  - pose proof (frame_altitude dt ch st Hoff Hch) as Hf.
    destruct (frame PI args dt ch st) as [[st' | st'] out];
      cbn [fst state_of] in *; [exact Hf |].
    rewrite IH. exact Hf.
Qed.

End LoopAngles.

Lemma angles_move_by_own_keys_witness :
  let st := Main.mkLoop (Cam.mkCamera 20 0 1) false true true 0 in
  Cam.azimuth (Main.cam (Frame.state_of (fst
    (Frame.frames Mathematics.PI_f32 (Cli.set_animate_altitude Cli.Args0 true)
       [(1, Curses.ERR); (1, Curses.KEY_UP); (1, Main.key "+")] st)))) = 20.
Proof.
  intros st.
  apply (proj1 (angles_move_by_own_keys Mathematics.PI_f32
                  (Cli.set_animate_altitude Cli.Args0 true)
                  [(1, Curses.ERR); (1, Curses.KEY_UP); (1, Main.key "+")]
                  st)).
  - reflexivity.
  - unfold horizontal_keys.
    repeat constructor; simpl; intros H;
      repeat (destruct H as [H | H]; [discriminate H |]); exact H.
Defined.

(** ** binary32: order *)

Section Binary32Order.

Import F32.

Lemma compare_antisym (x y : float) :
  SFcompare y x = option_map CompOpp (SFcompare x y).
Proof.
  destruct x as [sx | sx | | sx mx ex], y as [sy | sy | | sy my ey];
    try destruct sx; try destruct sy; try reflexivity; simpl;
    rewrite (Z.compare_antisym ey ex);
    destruct (ey ?= ex)%Z; simpl; try reflexivity;
    f_equal; rewrite ?CompOpp_involutive;
    pose proof (Pos.compare_cont_antisym mx my Eq) as H; simpl in H;
    rewrite <- H; rewrite ?CompOpp_involutive; reflexivity.
Qed.

Lemma compare_number (x y : float) :
  is_nan x = false -> is_nan y = false -> exists c, SFcompare x y = Some c.
Proof.
  destruct x, y; simpl; intros Hx Hy; try discriminate; eauto.
Qed.

Lemma le_refl (x : float) : is_nan x = false -> le x x = true.
Proof.
  unfold le, SFleb.
  destruct x as [sx | sx | | sx mx ex]; try destruct sx; simpl;
    try reflexivity; try discriminate; intros _;
    rewrite Z.compare_refl, Pos.compare_cont_refl; reflexivity.
Qed.

Lemma lt_false_le (x y : float) :
  is_nan x = false -> is_nan y = false -> lt x y = false -> le y x = true.
Proof.
  intros Hx Hy. unfold lt, le, SFltb, SFleb.
  rewrite (compare_antisym x y).
  destruct (compare_number x y Hx Hy) as [c ->].
  destruct c; simpl; congruence.
Qed.

Lemma le_numbers (x y : float) :
  le x y = true -> is_nan x = false /\ is_nan y = false.
Proof.
  unfold le, SFleb. destruct x, y; simpl; try discriminate; auto.
Qed.

Lemma lt_numbers (x y : float) :
  lt x y = true -> is_nan x = false /\ is_nan y = false.
Proof.
  unfold lt, SFltb. destruct x, y; simpl; try discriminate; auto.
Qed.

Lemma nan_not_within (lo hi : float) : ~ within lo hi nan.
Proof.
  intros [H _]. apply le_numbers in H. destruct H as [_ H]. discriminate H.
Qed.

(** [std::clamp] of a number between two ordered bounds. *)
Lemma clamp_within (v lo hi : float) :
  le lo hi = true -> is_nan v = false ->
  within lo hi (clamp v lo hi) /\ clamped_to_f v lo hi (clamp v lo hi).
Proof.
  intros Hord Hv.
  destruct (le_numbers lo hi Hord) as [Hlo Hhi].
  unfold clamp, within, clamped_to_f.
  destruct (lt v lo) eqn:E1.
  - split; [split; [apply le_refl; exact Hlo | exact Hord] |].
    left. split; reflexivity.
  - destruct (lt hi v) eqn:E2.
    + split; [split; [exact Hord | apply le_refl; exact Hhi] |].
      right. left. split; reflexivity.
    + assert (H1 : le lo v = true) by (apply lt_false_le; assumption).
      assert (H2 : le v hi = true) by (apply lt_false_le; assumption).
      split; [split; assumption |].
      right. right. split; [split; assumption | reflexivity].
Qed.

(** [std::clamp] hands a NaN back. *)
Lemma clamp_nan (lo hi : float) : clamp nan lo hi = nan.
Proof. unfold clamp, lt, SFltb. destruct lo, hi; reflexivity. Qed.

(** [std::min(a, b)] and [std::max(a, b)] with a number [b]: NaN
    exactly when [a] is, and on the right side of [b] otherwise. *)
Lemma min_number (a b : float) :
  is_nan b = false ->
  is_nan (min a b) = is_nan a /\
  (is_nan a = false -> le (min a b) b = true).
Proof.
  intros Hb. unfold min. destruct (lt b a) eqn:E.
  - destruct (lt_numbers b a E) as [_ Ha]. rewrite Ha.
    split; [exact Hb | intros _; apply le_refl; exact Hb].
  - split; [reflexivity |].
    intros Ha. apply lt_false_le; assumption.
Qed.

Lemma max_number (a b : float) :
  is_nan b = false ->
  is_nan (max a b) = is_nan a /\
  (is_nan a = false -> le b (max a b) = true).
Proof.
  intros Hb. unfold max. destruct (lt a b) eqn:E.
  - destruct (lt_numbers a b E) as [Ha _]. rewrite Ha.
    split; [exact Hb | intros _; apply le_refl; exact Hb].
  - split; [reflexivity |].
    intros Ha. apply lt_false_le; assumption.
Qed.

End Binary32Order.

(** ** The camera in binary32 *)

Section CameraBinary32.

Import F32.

Lemma above_max_above_min (x : float) :
  lt ZOOM_MAX x = true -> le ZOOM_MIN x = true.
Proof.
  destruct x as [s | s | | s m e]; try destruct s;
    try discriminate; try reflexivity.
  cbv beta iota delta [lt le SFltb SFleb SFcompare ZOOM_MAX ZOOM_MIN].
  destruct (Z.compare_spec (-21) e), (Z.compare_spec (-27) e);
    try lia; try discriminate; reflexivity.
Qed.

Lemma below_min_below_max (x : float) :
  lt x ZOOM_MIN = true -> le x ZOOM_MAX = true.
Proof.
  destruct x as [s | s | | s m e]; try destruct s;
    try discriminate; try reflexivity.
  cbv beta iota delta [lt le SFltb SFleb SFcompare ZOOM_MAX ZOOM_MIN].
  destruct (Z.compare_spec e (-27)), (Z.compare_spec e (-21));
    try lia; try discriminate; reflexivity.
Qed.

(** C3, as amended.  After [zoom_in(s)] the stored zoom lies in
    [[ZOOM_MIN, ZOOM_MAX]] exactly when [zoom + s], as computed, is at
    least [ZOOM_MIN]; after [zoom_out(s)] exactly when [zoom - s] is at
    most [ZOOM_MAX].  Each call guards one side only, and not against
    NaN: [zoom_in] stores NaN exactly when [zoom + s] is NaN and a
    value at most [ZOOM_MAX] otherwise, [zoom_out] stores NaN exactly
    when [zoom - s] is NaN and a value at least [ZOOM_MIN] otherwise.
    In particular, when the zoom lies in [[ZOOM_MIN, ZOOM_MAX]] before
    the call and the step is not negative, it lies in that interval
    after [zoom_in] and after [zoom_out] (exact arithmetic). *)
Theorem zoom_step_bounds (c : Cam.Camera) (s : Q)
    (cf : CamF.Camera) (sf : float) :
  (within ZOOM_MIN ZOOM_MAX (CamF.zoom (CamF.zoom_in sf cf)) <->
   le ZOOM_MIN (add (CamF.zoom cf) sf) = true) /\
  (within ZOOM_MIN ZOOM_MAX (CamF.zoom (CamF.zoom_out sf cf)) <->
   le (sub (CamF.zoom cf) sf) ZOOM_MAX = true) /\
  is_nan (CamF.zoom (CamF.zoom_in sf cf)) = is_nan (add (CamF.zoom cf) sf) /\
  (is_nan (add (CamF.zoom cf) sf) = false ->
   le (CamF.zoom (CamF.zoom_in sf cf)) ZOOM_MAX = true) /\
  is_nan (CamF.zoom (CamF.zoom_out sf cf)) = is_nan (sub (CamF.zoom cf) sf) /\
  (is_nan (sub (CamF.zoom cf) sf) = false ->
   le ZOOM_MIN (CamF.zoom (CamF.zoom_out sf cf)) = true) /\
  (Cam.zoom_clamped (Cam.zoom c) -> 0 <= s ->
   Cam.zoom_clamped (Cam.zoom (Cam.zoom_in s c)) /\
   Cam.zoom_clamped (Cam.zoom (Cam.zoom_out s c))).
Proof.
  destruct (min_number (add (CamF.zoom cf) sf) ZOOM_MAX eq_refl)
    as (Hn1 & Hb1).
  destruct (max_number (sub (CamF.zoom cf) sf) ZOOM_MIN eq_refl)
    as (Hn2 & Hb2).
  split; [| split; [| split; [| split; [| split; [| split]]]]];
    try assumption.
  - unfold CamF.zoom_in, within, min; cbn [CamF.zoom].
    destruct (lt ZOOM_MAX (add (CamF.zoom cf) sf)) eqn:E.
    + split; [intros _; apply above_max_above_min; exact E |].
      intros _. split; reflexivity.
    + split; [intros [H _]; exact H |].
      intros H. split; [exact H |].
      apply lt_false_le; [reflexivity | apply (le_numbers _ _ H) | exact E].
  - unfold CamF.zoom_out, within, max; cbn [CamF.zoom].
    destruct (lt (sub (CamF.zoom cf) sf) ZOOM_MIN) eqn:E.
    + split; [intros _; apply below_min_below_max; exact E |].
      intros _. split; reflexivity.
    + split; [intros [_ H]; exact H |].
      intros H. split; [| exact H].
      apply lt_false_le; [apply (le_numbers _ _ H) | reflexivity | exact E].
  - unfold Cam.zoom_clamped, Cam.zoom_in, Cam.zoom_out; simpl.
    pose proof zoom_bounds_ordered as Hord.
    intros [Hlo Hhi] Hs. repeat split.
    + apply min_lower; lra.
    + apply min_upper.
    + apply max_lower.
    + apply max_upper; lra.
Qed.

Lemma zoom_step_bounds_witness :
  Cam.zoom_clamped (Cam.zoom Cam.Camera0) /\ 0 <= Config.ZOOM_STEP /\
  Cam.zoom_clamped (Cam.zoom (Cam.zoom_in Config.ZOOM_STEP Cam.Camera0)) /\
  Cam.zoom_clamped (Cam.zoom (Cam.zoom_out Config.ZOOM_STEP Cam.Camera0)) /\
  within ZOOM_MIN ZOOM_MAX (CamF.zoom (CamF.zoom_in (of_int 7) CamF.Camera0)) /\
  le (CamF.zoom (CamF.zoom_in (of_int 7) CamF.Camera0)) ZOOM_MAX = true.
Proof.
  assert (Hc : Cam.zoom_clamped (Cam.zoom Cam.Camera0))
    by (split; intro H; discriminate H).
  assert (Hs : 0 <= Config.ZOOM_STEP) by (intro H; discriminate H).
  destruct (zoom_step_bounds Cam.Camera0 Config.ZOOM_STEP
              CamF.Camera0 (of_int 7))
    as (Hiff & _ & _ & Hmax & _ & _ & Hin).
  split; [exact Hc |]. split; [exact Hs |].
  destruct (Hin Hc Hs) as (H1 & H2).
  split; [exact H1 |]. split; [exact H2 |].
  split; [apply Hiff; reflexivity |].
  apply Hmax. reflexivity.
Defined.

(** On [float] a NaN step, or an infinite zoom met by the opposite
    infinite step, is stored as NaN, outside every interval. *)
Lemma zoom_step_stores_nan :
  CamF.zoom (CamF.zoom_in nan CamF.Camera0) = nan /\
  CamF.zoom (CamF.zoom_out nan CamF.Camera0) = nan /\
  ~ within ZOOM_MIN ZOOM_MAX (CamF.zoom (CamF.zoom_in nan CamF.Camera0)).
Proof.
  split; [reflexivity |]. split; [reflexivity |].
  apply nan_not_within.
Qed.

(** C5 as stated fails: a NaN argument goes through [std::clamp]
    unchanged, so [Camera(NaN)] stores a zoom, and
    [Camera(0, NaN, 1)] an altitude, outside the interval. *)
Lemma constructors_keep_nan :
  CamF.zoom (CamF.Camera1 nan) = nan /\
  ~ within ZOOM_MIN ZOOM_MAX (CamF.zoom (CamF.Camera1 nan)) /\
  CamF.altitude (CamF.Camera3 PI_f32 (MathematicsF.rad_norm PI_f32)
                   zero nan ZOOM_START) = nan /\
  ~ within (CamF.lower PI_f32) (CamF.upper PI_f32)
      (CamF.altitude (CamF.Camera3 PI_f32 (MathematicsF.rad_norm PI_f32)
                        zero nan ZOOM_START)).
Proof.
  split; [reflexivity |].
  split; [apply nan_not_within |].
  split; [reflexivity |].
  apply nan_not_within.
Qed.

(** C5, as amended.  For constructor arguments that are not NaN, and
    [PI] such that [-PI / 2 <= PI / 2]: the three-argument constructor
    stores [rad_norm(azimuth)], the altitude clamped to
    [[-PI/2, PI/2]] and the zoom clamped to [[ZOOM_MIN, ZOOM_MAX]],
    both inside their interval; the one-argument constructor stores
    azimuth 0, altitude 0 and the zoom clamped to
    [[ZOOM_MIN, ZOOM_MAX]]; the default constructor stores 0, 0 and
    1. *)
Theorem constructors_establish_ranges (PI : float)
    (rad_norm : float -> float) (az al z : float) :
  le (CamF.lower PI) (CamF.upper PI) = true ->
  is_nan al = false -> is_nan z = false ->
  (CamF.azimuth (CamF.Camera3 PI rad_norm az al z) = rad_norm az /\
   clamped_to_f al (CamF.lower PI) (CamF.upper PI)
                (CamF.altitude (CamF.Camera3 PI rad_norm az al z)) /\
   within (CamF.lower PI) (CamF.upper PI)
          (CamF.altitude (CamF.Camera3 PI rad_norm az al z)) /\
   clamped_to_f z ZOOM_MIN ZOOM_MAX
                (CamF.zoom (CamF.Camera3 PI rad_norm az al z)) /\
   within ZOOM_MIN ZOOM_MAX
          (CamF.zoom (CamF.Camera3 PI rad_norm az al z))) /\
  (CamF.azimuth (CamF.Camera1 z) = zero /\
   CamF.altitude (CamF.Camera1 z) = zero /\
   clamped_to_f z ZOOM_MIN ZOOM_MAX (CamF.zoom (CamF.Camera1 z)) /\
   within ZOOM_MIN ZOOM_MAX (CamF.zoom (CamF.Camera1 z))) /\
  (CamF.azimuth CamF.Camera0 = zero /\ CamF.altitude CamF.Camera0 = zero /\
   CamF.zoom CamF.Camera0 = ZOOM_START /\
   within ZOOM_MIN ZOOM_MAX (CamF.zoom CamF.Camera0)).
Proof.
  intros Hpi Hal Hz.
  assert (Hzoom : le ZOOM_MIN ZOOM_MAX = true) by reflexivity.
  destruct (clamp_within al _ _ Hpi Hal) as (Ha1 & Ha2).
  destruct (clamp_within z _ _ Hzoom Hz) as (Hz1 & Hz2).
  split; [| split].
  - unfold CamF.Camera3; simpl.
    split; [reflexivity |]. split; [exact Ha2 |]. split; [exact Ha1 |].
    split; [exact Hz2 | exact Hz1].
  - unfold CamF.Camera1; simpl.
    split; [reflexivity |]. split; [reflexivity |].
    split; [exact Hz2 | exact Hz1].
  - split; [reflexivity |]. split; [reflexivity |].
    split; [reflexivity |]. split; reflexivity.
Qed.

Lemma constructors_establish_ranges_witness :
  le (CamF.lower PI_f32) (CamF.upper PI_f32) = true /\
  within (CamF.lower PI_f32) (CamF.upper PI_f32)
    (CamF.altitude (CamF.Camera3 PI_f32 (MathematicsF.rad_norm PI_f32)
                      (of_int 7) (of_int 2) (of_int 9))) /\
  CamF.zoom (CamF.Camera3 PI_f32 (MathematicsF.rad_norm PI_f32)
               (of_int 7) (of_int 2) (of_int 9)) = ZOOM_MAX.
Proof.
  assert (Hpi : le (CamF.lower PI_f32) (CamF.upper PI_f32) = true)
    by reflexivity.
  split; [exact Hpi |].
  destruct (constructors_establish_ranges PI_f32
              (MathematicsF.rad_norm PI_f32) (of_int 7) (of_int 2) (of_int 9)
              Hpi eq_refl eq_refl) as ((_ & _ & Hal & _) & _ & _).
  split; [exact Hal | reflexivity].
Defined.

End CameraBinary32.

(** ** Rotation and zoom steps in binary32 *)

Section StepsBinary32.

Import F32.






Lemma repeat_call_S {A : Type} (f : A -> A) (n : nat) (a : A) :
  repeat_call f (S n) a = f (repeat_call f n a).
Proof.
  revert a. induction n as [| n IH]; intros a; [reflexivity |].
  change (repeat_call f (S (S n)) a) with (repeat_call f (S n) (f a)).
  rewrite IH. reflexivity.
Qed.

Lemma zoom_in_zoom (sf : float) (cf : CamF.Camera) :
  CamF.zoom (CamF.zoom_in sf cf) = min (add (CamF.zoom cf) sf) ZOOM_MAX.
Proof. reflexivity. Qed.

Lemma zoom_out_zoom (sf : float) (cf : CamF.Camera) :
  CamF.zoom (CamF.zoom_out sf cf) = max (sub (CamF.zoom cf) sf) ZOOM_MIN.
Proof. reflexivity. Qed.

(** X2.  What a zoom step stores in binary32: [zoom_in] stores
    [ZOOM_MAX] when [zoom + step] is above it and the rounded sum
    otherwise, [zoom_out] stores [ZOOM_MIN] when [zoom - step] is below
    it and the rounded difference otherwise.  With the program's step
    0.1f the default camera is at 4.99999762 after 40 calls of
    [zoom_in], at [ZOOM_MAX] after 41 and stays there; it is at
    [ZOOM_MIN] after 9 calls of [zoom_out] and stays there. *)
Theorem zoom_steps_pin_at_limit (cf : CamF.Camera) (sf : float) (n : nat) :
  (lt ZOOM_MAX (add (CamF.zoom cf) sf) = true ->
   CamF.zoom (CamF.zoom_in sf cf) = ZOOM_MAX) /\
  (lt ZOOM_MAX (add (CamF.zoom cf) sf) = false ->
   CamF.zoom (CamF.zoom_in sf cf) = add (CamF.zoom cf) sf) /\
  (lt (sub (CamF.zoom cf) sf) ZOOM_MIN = true ->
   CamF.zoom (CamF.zoom_out sf cf) = ZOOM_MIN) /\
  (lt (sub (CamF.zoom cf) sf) ZOOM_MIN = false ->
   CamF.zoom (CamF.zoom_out sf cf) = sub (CamF.zoom cf) sf) /\
  CamF.zoom (repeat_call (CamF.zoom_in ZOOM_STEP) 40 CamF.Camera0)
  = S754_finite false 10485755 (-21) /\
  CamF.zoom (repeat_call (CamF.zoom_in ZOOM_STEP) (41 + n) CamF.Camera0)
  = ZOOM_MAX /\
  CamF.zoom (repeat_call (CamF.zoom_out ZOOM_STEP) (9 + n) CamF.Camera0)
  = ZOOM_MIN.
Proof.
  split; [intros H; unfold CamF.zoom_in, min; cbn [CamF.zoom];
          rewrite H; reflexivity |].
  split; [intros H; unfold CamF.zoom_in, min; cbn [CamF.zoom];
          rewrite H; reflexivity |].
  split; [intros H; unfold CamF.zoom_out, max; cbn [CamF.zoom];
          rewrite H; reflexivity |].
  split; [intros H; unfold CamF.zoom_out, max; cbn [CamF.zoom];
          rewrite H; reflexivity |].
  split; [vm_compute; reflexivity |].
  split.
  - induction n as [| n IH]; [vm_compute; reflexivity |].
    replace (41 + S n)%nat with (S (41 + n)) by lia.
    rewrite repeat_call_S, zoom_in_zoom, IH.
    vm_compute. reflexivity.
  - induction n as [| n IH]; [vm_compute; reflexivity |].
    replace (9 + S n)%nat with (S (9 + n)) by lia.
    rewrite repeat_call_S, zoom_out_zoom, IH.
    vm_compute. reflexivity.
Qed.

Lemma zoom_steps_pin_at_limit_witness :
  CamF.zoom (CamF.zoom_in ZOOM_STEP (CamF.mkCamera zero zero ZOOM_MAX))
  = ZOOM_MAX /\
  CamF.zoom (CamF.zoom_out ZOOM_STEP (CamF.mkCamera zero zero ZOOM_MAX))
  = S754_finite false 10276045 (-21).
Proof.
  destruct (zoom_steps_pin_at_limit (CamF.mkCamera zero zero ZOOM_MAX)
              ZOOM_STEP 0) as (Hin & _ & _ & Hout & _).
  split; [apply Hin; reflexivity |].
  rewrite Hout; reflexivity.
Defined.

End StepsBinary32.

(** ** The clock of the render loop *)

Section ClockFacts.

Import F32 Clock.

Lemma drawn_of_app (t1 t2 : list timed) :
  drawn_of (t1 ++ t2) = drawn_of t1 ++ drawn_of t2.
Proof.
  induction t1 as [| e t1 IH]; [reflexivity |].
  destruct e; simpl; rewrite IH; reflexivity.
Qed.

Lemma drawn_of_drawn (out : list Frame.drawn) :
  drawn_of (map Drawn out) = out.
Proof.
  induction out as [| d out IH]; [reflexivity |].
  simpl. rewrite IH. reflexivity.
Qed.

Lemma sleeps_of_app (t1 t2 : list timed) :
  sleeps_of (t1 ++ t2) = sleeps_of t1 ++ sleeps_of t2.
Proof.
  induction t1 as [| e t1 IH]; [reflexivity |].
  destruct e; simpl; rewrite IH; reflexivity.
Qed.

Lemma sleeps_of_drawn (out : list Frame.drawn) :
  sleeps_of (map Drawn out) = [].
Proof. induction out as [| d out IH]; [reflexivity | exact IH]. Qed.

(** Without its clock the loop is [Frame.frames] on the [dt] of each
    iteration: one body for each reading of the clock. *)
Lemma timed_frames_untimed (PI : Q) (args : Cli.Args) (ticks : list tick) :
  forall last st,
  fst (timed_frames PI args last ticks st)
  = fst (Frame.frames PI args (dts last ticks) st) /\
  drawn_of (snd (timed_frames PI args last ticks st))
  = snd (Frame.frames PI args (dts last ticks) st).
Proof.
  induction ticks as [| t ticks IH]; intros last st; [split; reflexivity |].
  cbn [timed_frames dts Frame.frames].
  destruct (Frame.frame PI args (exact (dt_of last (now t))) (ch t) st)
    as [[st' | st'] out].
  - cbn [fst snd]. split; [reflexivity |].
    rewrite drawn_of_app, drawn_of_drawn. reflexivity.
  - cbn [fst snd]. destruct (IH (now t) st') as [IH1 IH2].
    split; [exact IH1 |].
    rewrite drawn_of_app, drawn_of_drawn. cbn [drawn_of].
    rewrite IH2. reflexivity.
Qed.

(** Every iteration that goes on calls [sleep_until] once, with the
    deadline computed from its own start. *)
Lemma timed_frames_sleeps (PI : Q) (args : Cli.Args) (ticks : list tick) :
  Forall (fun t => ~ In (ch t) quit_keys) ticks ->
  forall last st,
  sleeps_of (snd (timed_frames PI args last ticks st)) = map sleep_of ticks.
Proof.
  induction 1 as [| t ticks Ht Hticks IH]; intros last st; [reflexivity |].
  cbn [timed_frames map].
  destruct (proj2 (frame_break PI args (exact (dt_of last (now t))) (ch t) st)
              Ht) as [st' Hst'].
  destruct (Frame.frame PI args (exact (dt_of last (now t))) (ch t) st)
    as [s out].
  cbn [fst] in Hst'. subst s. cbn [snd].
  rewrite sleeps_of_app, sleeps_of_drawn. cbn [sleeps_of app].
  rewrite IH. reflexivity.
Qed.

(** C9.  The loop runs one body for each reading of the clock, on
    [dt = now - last], and an iteration that goes on ends with one
    [sleep_until] whose deadline is computed from that iteration's
    start: no frame is skipped or caught up.  The deadline is
    [now + FRAME_DURATION] computed in [float] nanoseconds, so it is
    rounded to binary32.  With the clock at 0 the deadline is
    16666668 ns and the call sleeps.  With the clock at 10^15 ns the
    deadline is 999999986991104 ns, before the start of the
    iteration: [sleep_until] returns at once, also 1 ms and 20 ms
    later, and with the clock at 10^13 ns the deadline is only
    16605184 ns after the start, short of 1/60 s. *)
Theorem frame_deadline_in_float (PI : Q) (args : Cli.Args) (last : Z)
    (ticks : list tick) (st : Main.Loop) :
  (fst (timed_frames PI args last ticks st)
   = fst (Frame.frames PI args (dts last ticks) st) /\
   drawn_of (snd (timed_frames PI args last ticks st))
   = snd (Frame.frames PI args (dts last ticks) st) /\
   (Forall (fun t => ~ In (ch t) quit_keys) ticks ->
    sleeps_of (snd (timed_frames PI args last ticks st))
    = map sleep_of ticks)) /\
  (value (mul FRAME_DURATION giga) = Some 16666668 /\
   sleep_of (mkTick 0 Curses.ERR 1000000)
   = (S754_finite false 16666668 0, true)) /\
  (value (frame_deadline 1000000000000000) = Some 999999986991104 /\
   sleeps (frame_deadline 1000000000000000) 1000000000000000 = false /\
   sleeps (frame_deadline 1000000000000000) 1000000001000000 = false /\
   sleeps (frame_deadline 1000000000000000) 1000000020000000 = false /\
   frame_deadline 1000000001000000 = frame_deadline 1000000000000000 /\
   value (dt_of 1000000000000000 1000000001000000)
   = Some (8589935 # 8589934592)) /\
  value (frame_deadline 10000000000000) = Some 10000016605184.
Proof.
  split; [| split; [| split]].
  - destruct (timed_frames_untimed PI args ticks last st) as [H1 H2].
    split; [exact H1 |]. split; [exact H2 |].
    intros Hkeys. apply timed_frames_sleeps. exact Hkeys.
  - split; vm_compute; reflexivity.
  - repeat split; vm_compute; reflexivity.
  - vm_compute; reflexivity.
Qed.

Lemma frame_deadline_in_float_witness :
  sleeps_of
    (snd (timed_frames Mathematics.PI_f32 Cli.Args0 999999999000000
            [mkTick 1000000000000000 Curses.ERR 1000000001000000;
             mkTick 1000000001000000 Curses.ERR 1000000002000000;
             mkTick 1000000002000000 (Main.key "+") 1000000003000000]
            (Main.mkLoop Cam.Camera0 true false true 0)))
  = [(S754_finite false 14901161 26, false);
     (S754_finite false 14901161 26, false);
     (S754_finite false 14901161 26, false)].
Proof.
  destruct (frame_deadline_in_float Mathematics.PI_f32 Cli.Args0
              999999999000000
              [mkTick 1000000000000000 Curses.ERR 1000000001000000;
               mkTick 1000000001000000 Curses.ERR 1000000002000000;
               mkTick 1000000002000000 (Main.key "+") 1000000003000000]
              (Main.mkLoop Cam.Camera0 true false true 0))
    as ((_ & _ & Hsleeps) & _).
  rewrite Hsleeps; [vm_compute; reflexivity |].
  repeat constructor; vm_compute; intuition discriminate.
Defined.

End ClockFacts.

(** ** Start-up with the loader *)

Section StartLoader.

Import Cli Main.

Lemma printed_writes (L : Loader.Loader) (out : list output) :
  Loader.printed L (map Write out) = map Loader.By_main out.
Proof.
  induction out as [| o out IH]; [reflexivity |].
  unfold Loader.printed in *. simpl. rewrite IH. reflexivity.
Qed.

(** C8, as amended.  (1) When the scan of the command line ends with no
    input file, the process writes "error: no input file" and the usage
    hint on standard error and exits with status 1.  (2) When the
    loader reports failure for the path, the process exits with status
    1 and what has been printed is the loader's message.  (3) The
    render loop is reached only with an input file named and loaded.
    (4) Every exit before the loop happens before ncurses is
    initialised and after something was printed, with status 1, or with
    status 0 after the help or the version text. *)
Theorem startup_aborts (PI : Q) (safe_stof : string -> option Q)
    (L : Loader.Loader) (term : Curses.Terminal) (argv : list string) :
  (forall a,
     parse_loop safe_stof Args0 argv = Parsed a ->
     empty (input_file a) = true ->
     main_start PI safe_stof (Loader.load_of L) term argv
       = Exited 1 [Write (Cerr ("error: no input file" ++ nl));
                   Write usage_hint]) /\
  (forall a message,
     parse_args safe_stof argv = Parsed a ->
     L (input_file a) (color_support a) = inr message ->
     main_start PI safe_stof (Loader.load_of L) term argv
       = Exited 1 [ObjLoad (input_file a) (color_support a)] /\
     Loader.printed L [ObjLoad (input_file a) (color_support a)]
       = [Loader.By_loader message]) /\
  (forall args st trace,
     main_start PI safe_stof (Loader.load_of L) term argv
       = Looping args st trace ->
     parse_args safe_stof argv = Parsed args /\
     empty (input_file args) = false /\
     exists materials,
       L (input_file args) (color_support args) = inl materials) /\
  (forall status trace,
     main_start PI safe_stof (Loader.load_of L) term argv
       = Exited status trace ->
     ~ entered_ncurses trace /\
     Loader.printed L trace <> [] /\
     (status = 1%Z \/
      status = 0%Z /\
      (written trace = [Cout_help] \/ written trace = [Cout_version]))).
Proof.
  split; [| split; [| split]].
  - intros a Hscan Hempty. unfold main_start, parse_args.
    rewrite Hscan, Hempty. reflexivity.
  - intros a message Hargs Hload. unfold main_start, Loader.load_of.
    rewrite Hargs, Hload. split; [reflexivity |].
    unfold Loader.printed. simpl. rewrite Hload. reflexivity.
  - intros args st trace H.
    apply start_looping in H. destruct H as (Hargs & (ms & Hload) & _).
    split; [exact Hargs |].
    split; [exact (proj2 (parse_args_has_file _ _ _ Hargs)) |].
    unfold Loader.load_of in Hload.
    destruct (L (input_file args) (color_support args)) as [ms' | message];
      [exists ms'; reflexivity | discriminate Hload].
  - intros status trace H.
    split; [exact (exited_before_ncurses _ _ _ _ _ _ _ H) |].
    apply start_exited in H.
    destruct H as [(out & Hexit & ->) | (a & _ & Hload & -> & ->)].
    + apply parse_args_exit in Hexit. rewrite printed_writes.
      destruct Hexit as [(-> & Hout) | (-> & Hsome & _)].
      * split; [destruct Hout as [-> | ->]; discriminate |].
        right. split; [reflexivity |].
        destruct Hout as [-> | ->]; [left | right]; reflexivity.
      * split; [| left; reflexivity].
        destruct out; [contradiction Hsome; reflexivity | discriminate].
    + split; [| left; reflexivity].
      unfold Loader.printed, Loader.load_of in *. simpl.
      destruct (L (input_file a) (color_support a));
        [discriminate Hload | discriminate].
Qed.

Lemma startup_aborts_witness :
  main_start Mathematics.PI_f32 stof_dec
             (Loader.load_of (loader_only "cube.obj")) xterm
             ["-c"; "-l"]%string
  = Exited 1 [Write (Cerr ("error: no input file" ++ nl)); Write usage_hint] /\
  main_start Mathematics.PI_f32 stof_dec
             (Loader.load_of (loader_only "cube.obj")) xterm
             ["-c"; "teapot.obj"]%string
  = Exited 1 [ObjLoad "teapot.obj" true] /\
  Loader.printed (loader_only "cube.obj") [ObjLoad "teapot.obj" true]
  = [Loader.By_loader "error: cannot open teapot.obj"].
Proof.
  split.
  - apply (proj1 (startup_aborts Mathematics.PI_f32 stof_dec
                    (loader_only "cube.obj") xterm ["-c"; "-l"]%string)
             (set_static_light (set_color_support Args0 true) true));
      reflexivity.
  - apply (proj1 (proj2 (startup_aborts Mathematics.PI_f32 stof_dec
                           (loader_only "cube.obj") xterm
                           ["-c"; "teapot.obj"]%string))
             (set_input_file (set_color_support Args0 true) "teapot.obj")
             "error: cannot open teapot.obj"%string);
      reflexivity.
Defined.

End StartLoader.

(** ** Curses before the loop *)

Section CursesStart.

Import Curses Colors.



End CursesStart.
